(** * cli-bridge: the validation module and the command channel

    A shallow embedding of [lib/validation.js] (the Input Validator) and of
    [getServer] / [sendCommand] and the tool handlers of [vw_mcp_server.js]
    (the Command Channel), with the properties of the specification that
    concern them.

    JavaScript strings are sequences of UTF-16 code units; they are modelled
    as lists of code units ([N]).  Regular expressions are embedded as a small
    regular-expression syntax with a derivative matcher, so that every
    pattern of the source is transcribed literally. *)

From Stdlib Require Import List ZArith NArith Bool Lia Ascii String.
From Stdlib Require Import DecimalString.
Import ListNotations.

Set Implicit Arguments.
Set Warnings "-register-all".
Local Open Scope list_scope.

(* ================================================================== *)
(** * JavaScript strings *)
(* ================================================================== *)

Definition codeunit := N.
Definition jsstring := list codeunit.

(** The code unit of an ASCII character, and the JavaScript string of an
    ASCII literal. *)
Definition cu (a : ascii) : codeunit := N_of_ascii a.
Definition js (s : string) : jsstring := map cu (list_ascii_of_string s).

(** The double quote, and a literal in which the apostrophe stands for
    it. *)
Definition double_quote : codeunit := 0x22%N.
Definition jsq (s : string) : jsstring :=
  map (fun c => if (c =? 0x27)%N then double_quote else c) (js s).

(** [s.length] *)
Definition jslength (s : jsstring) : Z := Z.of_nat (List.length s).

Definition jsstring_eqb (a b : jsstring) : bool :=
  if list_eq_dec N.eq_dec a b then true else false.

(** [hay.includes(needle)], as a proposition and as a test. *)
Definition Includes (needle hay : jsstring) : Prop :=
  exists pre post, hay = pre ++ needle ++ post.

Fixpoint starts_with (p s : jsstring) : bool :=
  match p, s with
  | [], _ => true
  | a :: p', b :: s' => N.eqb a b && starts_with p' s'
  | _ :: _, [] => false
  end.

Fixpoint includes (needle hay : jsstring) : bool :=
  starts_with needle hay ||
  match hay with
  | [] => false
  | _ :: hay' => includes needle hay'
  end.

(** Character ranges and literal characters of a character class. *)
Definition range (lo hi : ascii) (c : codeunit) : bool :=
  (cu lo <=? c)%N && (c <=? cu hi)%N.
Definition chr (a : ascii) (c : codeunit) : bool := (c =? cu a)%N.
Definition hexrange (lo hi : N) (c : codeunit) : bool :=
  (lo <=? c)%N && (c <=? hi)%N.

(* ================================================================== *)
(** * Regular expressions *)
(* ================================================================== *)

Module Regex.

Inductive regex : Type :=
| Empty                               (* matches nothing *)
| Eps                                 (* the empty string *)
| Class (p : codeunit -> bool)        (* a character class [...] *)
| Cat (r1 r2 : regex)                 (* r1 r2 *)
| Alt (r1 r2 : regex)                 (* r1 | r2 *)
| Star (r : regex).                   (* r* *)

Definition Plus (r : regex) : regex := Cat r (Star r).   (* r+ *)
Definition Opt (r : regex) : regex := Alt r Eps.         (* r? *)

(** The strings a regular expression denotes. *)
Inductive Lang : regex -> jsstring -> Prop :=
| LEps : Lang Eps []
| LClass p c : p c = true -> Lang (Class p) [c]
| LCat r1 r2 s1 s2 : Lang r1 s1 -> Lang r2 s2 -> Lang (Cat r1 r2) (s1 ++ s2)
| LAltL r1 r2 s : Lang r1 s -> Lang (Alt r1 r2) s
| LAltR r1 r2 s : Lang r2 s -> Lang (Alt r1 r2) s
| LStar0 r : Lang (Star r) []
| LStarS r s1 s2 : Lang r s1 -> Lang (Star r) s2 -> Lang (Star r) (s1 ++ s2).

Fixpoint nullable (r : regex) : bool :=
  match r with
  | Empty => false
  | Eps => true
  | Class _ => false
  | Cat r1 r2 => nullable r1 && nullable r2
  | Alt r1 r2 => nullable r1 || nullable r2
  | Star _ => true
  end.

Fixpoint deriv (c : codeunit) (r : regex) : regex :=
  match r with
  | Empty => Empty
  | Eps => Empty
  | Class p => if p c then Eps else Empty
  | Cat r1 r2 =>
      if nullable r1 then Alt (Cat (deriv c r1) r2) (deriv c r2)
      else Cat (deriv c r1) r2
  | Alt r1 r2 => Alt (deriv c r1) (deriv c r2)
  | Star r1 => Cat (deriv c r1) (Star r1)
  end.

(** Whole-string matching. *)
Fixpoint matches (r : regex) (s : jsstring) : bool :=
  match s with
  | [] => nullable r
  | c :: s' => matches (deriv c r) s'
  end.

Definition any : regex := Class (fun _ => true).

(** [/^r$/.test(s)]: without the [m] flag the anchors are the two ends of
    the input. *)
Definition test_anchored (r : regex) (s : jsstring) : bool := matches r s.

(** [/r/.test(s)]: some substring of [s] matches [r]. *)
Definition test_search (r : regex) (s : jsstring) : bool :=
  matches (Cat (Star any) (Cat r (Star any))) s.

End Regex.
Import Regex.

(* ================================================================== *)
(** * JavaScript values handed to the validators *)
(* ================================================================== *)

(** A JavaScript number: NaN, an infinity, or the finite value [m * 2^e]
    (every finite double has this form). *)
Inductive number : Type :=
| NaN
| Infinity (negative : bool)
| Finite (m e : Z).

Inductive JSValue : Type :=
| VUndefined
| VNull
| VBool (b : bool)
| VNumber (x : number)
| VString (s : jsstring)
| VObject.                 (* any object, array or function *)

Definition isNaN (x : number) : bool :=
  match x with NaN => true | _ => false end.

(** [Number.isInteger] *)
Definition Number_isInteger (x : number) : bool :=
  match x with
  | NaN | Infinity _ => false
  | Finite m e => if (0 <=? e)%Z then true else (m mod 2 ^ (- e) =? 0)%Z
  end.

(** [x < k] and [x > k] for an integer constant [k]. *)
Definition number_lt (x : number) (k : Z) : bool :=
  match x with
  | NaN => false
  | Infinity negative => negative
  | Finite m e => if (0 <=? e)%Z then (m * 2 ^ e <? k)%Z else (m <? k * 2 ^ (- e))%Z
  end.

Definition number_gt (x : number) (k : Z) : bool :=
  match x with
  | NaN => false
  | Infinity negative => negb negative
  | Finite m e => if (0 <=? e)%Z then (m * 2 ^ e >? k)%Z else (m >? k * 2 ^ (- e))%Z
  end.

(** The number [x] is the integer [n]. *)
Definition integer_value (x : number) (n : Z) : Prop :=
  match x with
  | NaN | Infinity _ => False
  | Finite m e => if (0 <=? e)%Z then (m * 2 ^ e = n)%Z else (m = n * 2 ^ (- e))%Z
  end.

(** White space and line terminators, as [String.prototype.trim] and
    [parseInt] skip them. *)
Definition is_js_whitespace (c : codeunit) : bool :=
  hexrange 0x09 0x0d c || (c =? 0x20)%N || (c =? 0xa0)%N || (c =? 0x1680)%N
  || hexrange 0x2000 0x200a c || (c =? 0x2028)%N || (c =? 0x2029)%N
  || (c =? 0x202f)%N || (c =? 0x205f)%N || (c =? 0x3000)%N || (c =? 0xfeff)%N.

Fixpoint trim_start (s : jsstring) : jsstring :=
  match s with
  | c :: s' => if is_js_whitespace c then trim_start s' else s
  | [] => []
  end.

(** [s.trim()] *)
Definition trim (s : jsstring) : jsstring :=
  rev (trim_start (rev (trim_start s))).

Definition is_digit (c : codeunit) : bool := range "0" "9" c.

(** The leading run of decimal digits of [s], read as an integer, with the
    number of digits read. *)
Fixpoint read_digits (s : jsstring) (acc : Z) (count : nat) : Z * nat :=
  match s with
  | c :: s' =>
      if is_digit c then read_digits s' (10 * acc + (Z.of_N c - 48)) (S count)
      else (acc, count)
  | [] => (acc, count)
  end.

(** The number value of an integer: integers of magnitude
    [2^1024 - 2^970] and more round to an infinity.  Below that the integer
    is kept exact: rounding to the nearest double changes neither its
    being an integer nor how it compares with 1 and 65535. *)
Definition number_of_integer (n : Z) : number :=
  if (2 ^ 1024 - 2 ^ 970 <=? Z.abs n)%Z then Infinity (n <? 0)%Z
  else Finite n 0.

(** [parseInt(s, 10)]: leading white space is skipped, an optional sign is
    read, then the longest run of decimal digits; whatever follows is
    ignored, and no digit at all gives NaN. *)
Definition parseInt10 (s : jsstring) : number :=
  let t := trim_start s in
  let '(negative, t') :=
    match t with
    | c :: r => if chr "-" c then (true, r)
                else if chr "+" c then (false, r) else (false, t)
    | [] => (false, t)
    end in
  match read_digits t' 0 0 with
  | (_, O) => NaN
  | (n, S _) => number_of_integer (if negative then (- n)%Z else n)
  end.

(** [String(n)] for an integer constant. *)
Definition decimal (n : Z) : jsstring := js (NilZero.string_of_int (Z.to_int n)).

(* ================================================================== *)
(** * lib/validation.js *)
(* ================================================================== *)

Module Validation.

Definition MAX_INPUT_LENGTH : Z := 1000.

Definition letter (c : codeunit) : bool := range "A" "Z" c || range "a" "z" c.
Definition lower (c : codeunit) : bool := range "a" "z" c.
Definition alnum (c : codeunit) : bool :=
  range "A" "Z" c || range "a" "z" c || range "0" "9" c.
Definition alnum_lower_first (c : codeunit) : bool :=
  range "a" "z" c || range "A" "Z" c || range "0" "9" c.

(** [/^L A* ( \. L A* )* $/] with [L = [A-Za-z]] and [A = [A-Za-z0-9]] *)
Definition IDENTIFIER_PATTERN : regex :=
  Cat (Class letter)
   (Cat (Star (Class alnum))
        (Star (Cat (Class (chr "."))
              (Cat (Class letter) (Star (Class alnum)))))).

(** [/^[a-z][a-zA-Z0-9]*$/] *)
Definition UNARY_SELECTOR_PATTERN : regex :=
  Cat (Class lower) (Star (Class alnum_lower_first)).

(** The class [[+\-*/\\~<>=@%|&?!,]] *)
Definition binary_char (c : codeunit) : bool :=
  chr "+" c || chr "-" c || chr "*" c || chr "/" c || chr "\" c || chr "~" c
  || chr "<" c || chr ">" c || chr "=" c || chr "@" c || chr "%" c || chr "|" c
  || chr "&" c || chr "?" c || chr "!" c || chr "," c.

(** [/^[+\-*/\\~<>=@%|&?!,]+$/] *)
Definition BINARY_SELECTOR_PATTERN : regex := Plus (Class binary_char).

(** [/^([a-z][a-zA-Z0-9]*:)+$/] *)
Definition KEYWORD_SELECTOR_PATTERN : regex :=
  Plus (Cat (Class lower) (Cat (Star (Class alnum_lower_first)) (Class (chr ":")))).

(** The class [[\x00-\x1f\x7f`${}]] *)
Definition dangerous_char (c : codeunit) : bool :=
  hexrange 0x00 0x1f c || (c =? 0x7f)%N || chr "`" c || chr "$" c
  || chr "{" c || chr "}" c.

(** [/[\x00-\x1f\x7f`${}]/] *)
Definition DANGEROUS_CHARS : regex := Class dangerous_char.

Record ValidationResult : Type := {
  valid : bool;
  error : option jsstring
}.

Definition accept : ValidationResult := {| valid := true; error := None |}.
Definition reject (msg : jsstring) : ValidationResult :=
  {| valid := false; error := Some msg |}.

Definition validateClassName (name : JSValue) : ValidationResult :=
  match name with
  | VString name =>
      if (jslength name =? 0)%Z then reject (js "Class name cannot be empty")
      else if (jslength name >? MAX_INPUT_LENGTH)%Z then
        reject (js "Class name exceeds maximum length of " ++ decimal MAX_INPUT_LENGTH)
      else if test_search DANGEROUS_CHARS name then
        reject (js "Class name contains invalid characters")
      else if negb (test_anchored IDENTIFIER_PATTERN name) then
        reject (js "Class name must start with a letter and contain only letters, digits, or dots")
      else accept
  | _ => reject (js "Class name must be a string")
  end.

Definition validateSelector (selector : JSValue) : ValidationResult :=
  match selector with
  | VString selector =>
      if (jslength selector =? 0)%Z then reject (js "Selector cannot be empty")
      else if (jslength selector >? MAX_INPUT_LENGTH)%Z then
        reject (js "Selector exceeds maximum length of " ++ decimal MAX_INPUT_LENGTH)
      else if test_search DANGEROUS_CHARS selector then
        reject (js "Selector contains invalid characters")
      else
        let isUnary := test_anchored UNARY_SELECTOR_PATTERN selector in
        let isBinary := test_anchored BINARY_SELECTOR_PATTERN selector in
        let isKeyword := test_anchored KEYWORD_SELECTOR_PATTERN selector in
        if negb isUnary && negb isBinary && negb isKeyword then
          reject (js "Invalid selector format. Must be unary (e.g., size), binary (e.g., +), or keyword (e.g., at:put:)")
        else accept
  | _ => reject (js "Selector must be a string")
  end.

Definition validatePort (port : JSValue) : ValidationResult :=
  let portNum :=
    match port with
    | VString s => VNumber (parseInt10 s)
    | _ => port
    end in
  match portNum with
  | VNumber x =>
      if isNaN x then reject (js "Port must be a number")
      else if negb (Number_isInteger x) then reject (js "Port must be an integer")
      else if number_lt x 1 || number_gt x 65535 then
        reject (js "Port must be between 1 and 65535")
      else accept
  | _ => reject (js "Port must be a number")
  end.

Definition host_edge (c : codeunit) : bool :=
  range "a" "z" c || range "A" "Z" c || range "0" "9" c.
Definition host_inner (c : codeunit) : bool :=
  range "a" "z" c || range "A" "Z" c || range "0" "9" c || chr "-" c || chr "." c.

(** [/^[a-zA-Z0-9]([a-zA-Z0-9\-\.]*[a-zA-Z0-9])?$/] *)
Definition hostnamePattern : regex :=
  Cat (Class host_edge) (Opt (Cat (Star (Class host_inner)) (Class host_edge))).

Definition validateHost (host : JSValue) : ValidationResult :=
  match host with
  | VString host =>
      if (jslength host =? 0)%Z then reject (js "Host cannot be empty")
      else if (jslength host >? 253)%Z then reject (js "Host exceeds maximum length")
      else if test_search DANGEROUS_CHARS host then
        reject (js "Host contains invalid characters")
      else if negb (test_anchored hostnamePattern host)
              && negb (jsstring_eqb host (js "localhost")) then
        reject (js "Invalid hostname format")
      else accept
  | _ => reject (js "Host must be a string")
  end.

Definition validatePattern (pattern : JSValue) : ValidationResult :=
  match pattern with
  | VString pattern =>
      if (jslength pattern >? MAX_INPUT_LENGTH)%Z then
        reject (js "Pattern exceeds maximum length of " ++ decimal MAX_INPUT_LENGTH)
      else if (jslength pattern =? 0)%Z || jsstring_eqb pattern (js "*") then accept
      else if test_search DANGEROUS_CHARS pattern then
        reject (js "Pattern contains invalid characters")
      else accept
  | _ => reject (js "Pattern must be a string")
  end.

(** The class [[\x00-\x08\x0b\x0c\x0e-\x1f\x7f]]: the control characters
    without tab (0x09), line feed (0x0a) and carriage return (0x0d). *)
Definition expression_control_char (c : codeunit) : bool :=
  hexrange 0x00 0x08 c || (c =? 0x0b)%N || (c =? 0x0c)%N
  || hexrange 0x0e 0x1f c || (c =? 0x7f)%N.

Definition validateExpression (expression : JSValue) : ValidationResult :=
  match expression with
  | VString expression =>
      if (jslength expression =? 0)%Z then reject (js "Expression cannot be empty")
      else if (jslength expression >? MAX_INPUT_LENGTH)%Z then
        reject (js "Expression exceeds maximum length of " ++ decimal MAX_INPUT_LENGTH)
      else if test_search (Class expression_control_char) expression then
        reject (js "Expression contains invalid control characters")
      else accept
  | _ => reject (js "Expression must be a string")
  end.

Definition MAX_SOURCE_LENGTH : Z := 100000.

(** [source.includes('\x00')] *)
Definition has_null_byte (source : jsstring) : bool := includes [0%N] source.

Definition validateSource (source : JSValue) : ValidationResult :=
  match source with
  | VString source =>
      if (jslength source =? 0)%Z then reject (js "Source cannot be empty")
      else if (jslength source >? MAX_SOURCE_LENGTH)%Z then
        reject (js "Source exceeds maximum length of " ++ decimal MAX_SOURCE_LENGTH)
      else if has_null_byte source then reject (js "Source contains null bytes")
      else accept
  | _ => reject (js "Source must be a string")
  end.

Definition server_name_rest (c : codeunit) : bool :=
  range "a" "z" c || range "A" "Z" c || range "0" "9" c || chr "_" c || chr "-" c.
Definition server_name_first (c : codeunit) : bool :=
  range "a" "z" c || range "A" "Z" c.

Definition validateServerName (name : JSValue) : ValidationResult :=
  match name with
  | VUndefined | VNull => accept
  | VString name =>
      if (jslength name =? 0)%Z then reject (js "Server name cannot be empty string")
      else if (jslength name >? 100)%Z then reject (js "Server name exceeds maximum length")
      else if test_search DANGEROUS_CHARS name then
        reject (js "Server name contains invalid characters")
      else if negb (test_anchored
                      (Cat (Class server_name_first) (Star (Class server_name_rest)))
                      name) then
        reject (js "Server name must start with a letter and contain only letters, digits, underscores, or hyphens")
      else accept
  | _ => reject (js "Server name must be a string")
  end.

End Validation.

(* ================================================================== *)
(** * Exceptions, JSON values and [JSON.parse] *)
(* ================================================================== *)

(** A computation that returns a value or throws an [Error] with a
    message. *)
Inductive Exn (A : Type) : Type :=
| Return (a : A)
| Throw (message : jsstring).
Arguments Return {A} a.
Arguments Throw {A} message.

Definition bind {A B} (m : Exn A) (k : A -> Exn B) : Exn B :=
  match m with
  | Return a => k a
  | Throw e => Throw e
  end.

Notation "x <- m ;; k" := (bind m (fun x => k))
  (at level 61, m at next level, right associativity).
Notation "' p <- m ;; k" := (bind m (fun x => let p := x in k))
  (at level 61, p pattern, m at next level, right associativity).

(** JSON values: what [JSON.parse] returns and what the channel resolves
    to.  A number is kept as the decimal [mantissa * 10^exponent] that was
    read; an object as its members in source order, a later member with
    the same name taking precedence. *)
Inductive JSON : Type :=
| JNull
| JBool (b : bool)
| JNumber (mantissa exponent : Z)
| JString (s : jsstring)
| JArray (items : list JSON)
| JObject (members : list (jsstring * JSON)).

Module JSONParse.

(** JSON white space: tab, line feed, carriage return, space. *)
Definition is_ws (c : codeunit) : bool :=
  (c =? 0x09)%N || (c =? 0x0a)%N || (c =? 0x0d)%N || (c =? 0x20)%N.

Fixpoint skip_ws (s : jsstring) : jsstring :=
  match s with
  | c :: s' => if is_ws c then skip_ws s' else s
  | [] => []
  end.

(** The parser decides which texts [JSON.parse] rejects.  The message of
    the [SyntaxError] is the engine's and changes between its versions:
    the two texts below stand for it, and no property is stated of
    them. *)
Definition unexpected_end : jsstring := js "Unexpected end of JSON input".
Definition unexpected_token : jsstring := js "Unexpected token in JSON".

Definition hex_value (c : codeunit) : option N :=
  if range "0" "9" c then Some (c - 48)%N
  else if range "a" "f" c then Some (c - 87)%N
  else if range "A" "F" c then Some (c - 55)%N
  else None.

Definition hex4 (a b c d : codeunit) : option codeunit :=
  match hex_value a, hex_value b, hex_value c, hex_value d with
  | Some a, Some b, Some c, Some d => Some (((a * 16 + b) * 16 + c) * 16 + d)%N
  | _, _, _, _ => None
  end.

(** The characters of a string literal after its opening quote, up to the
    closing quote; [acc] holds the characters read so far, reversed. *)
Fixpoint parse_string_body (s acc : jsstring) : Exn (jsstring * jsstring) :=
  match s with
  | [] => Throw unexpected_end
  | c :: r =>
      if (c =? double_quote)%N then Return (rev acc, r)
      else if chr "\" c then
        match r with
        | [] => Throw unexpected_end
        | e :: r' =>
            if (e =? double_quote)%N then parse_string_body r' (double_quote :: acc)
            else if chr "\" e then parse_string_body r' (cu "\" :: acc)
            else if chr "/" e then parse_string_body r' (cu "/" :: acc)
            else if chr "b" e then parse_string_body r' (0x08%N :: acc)
            else if chr "f" e then parse_string_body r' (0x0c%N :: acc)
            else if chr "n" e then parse_string_body r' (0x0a%N :: acc)
            else if chr "r" e then parse_string_body r' (0x0d%N :: acc)
            else if chr "t" e then parse_string_body r' (0x09%N :: acc)
            else if chr "u" e then
              match r' with
              | h1 :: h2 :: h3 :: h4 :: r'' =>
                  match hex4 h1 h2 h3 h4 with
                  | Some u => parse_string_body r'' (u :: acc)
                  | None => Throw unexpected_token
                  end
              | _ => Throw unexpected_end
              end
            else Throw unexpected_token
        end
      else if (c <? 0x20)%N then Throw unexpected_token
      else parse_string_body r (c :: acc)
  end.

(** A number literal starting at [s]: an optional minus sign, an integer
    part without a superfluous leading zero, an optional fraction and an
    optional exponent. *)
Definition parse_number (s : jsstring) : Exn (JSON * jsstring) :=
  let '(negative, s1) :=
    match s with
    | c :: r => if chr "-" c then (true, r) else (false, s)
    | [] => (false, s)
    end in
  let '(int_part, int_digits) := read_digits s1 0 0 in
  let leading_zero :=
    match s1 with c :: _ => chr "0" c | [] => false end in
  if (int_digits =? 0)%nat then
    Throw (match s1 with [] => unexpected_end | _ => unexpected_token end)
  else if leading_zero && negb (int_digits =? 1)%nat then Throw unexpected_token
  else
    let s2 := skipn int_digits s1 in
    fraction <-
      match s2 with
      | c :: r =>
          if chr "." c then
            let '(frac, frac_digits) := read_digits r 0 0 in
            if (frac_digits =? 0)%nat then
              Throw (match r with [] => unexpected_end | _ => unexpected_token end)
            else Return (frac, frac_digits, skipn frac_digits r)
          else Return (0%Z, O, s2)
      | [] => Return (0%Z, O, s2)
      end ;;
    let '(frac, frac_digits, s3) := fraction in
    exponent <-
      match s3 with
      | c :: r =>
          if chr "e" c || chr "E" c then
            let '(exp_negative, r1) :=
              match r with
              | d :: r' => if chr "-" d then (true, r')
                           else if chr "+" d then (false, r') else (false, r)
              | [] => (false, r)
              end in
            let '(e, e_digits) := read_digits r1 0 0 in
            if (e_digits =? 0)%nat then
              Throw (match r1 with [] => unexpected_end | _ => unexpected_token end)
            else Return ((if exp_negative then - e else e)%Z, skipn e_digits r1)
          else Return (0%Z, s3)
      | [] => Return (0%Z, s3)
      end ;;
    let '(e, s4) := exponent in
    let magnitude := (int_part * 10 ^ Z.of_nat frac_digits + frac)%Z in
    Return (JNumber (if negative then - magnitude else magnitude)%Z
                    (e - Z.of_nat frac_digits)%Z, s4).

Definition expect_literal (lit : jsstring) (v : JSON) (s : jsstring)
  : Exn (JSON * jsstring) :=
  if starts_with lit s then Return (v, skipn (List.length lit) s)
  else if starts_with s lit then Throw unexpected_end
  else Throw unexpected_token.

(** Recursive descent, with [fuel] bounding the depth of the calls.
    [parse_value] reads one value; [parse_items] the rest of an array
    after its opening bracket or after an item; [parse_members] the rest
    of an object likewise. *)
Fixpoint parse_value (fuel : nat) (s : jsstring) : Exn (JSON * jsstring) :=
  match fuel with
  | O => Throw unexpected_token
  | S fuel' =>
      match skip_ws s with
      | [] => Throw unexpected_end
      | c :: r =>
          if chr "{" c then
            match skip_ws r with
            | [] => Throw unexpected_end
            | d :: r' =>
                if chr "}" d then Return (JObject [], r')
                else parse_members fuel' (d :: r') []
            end
          else if chr "[" c then
            match skip_ws r with
            | [] => Throw unexpected_end
            | d :: r' =>
                if chr "]" d then Return (JArray [], r')
                else parse_items fuel' (d :: r') []
            end
          else if (c =? double_quote)%N then
            '(str, r') <- parse_string_body r [] ;;
            Return (JString str, r')
          else if chr "t" c then expect_literal (js "true") (JBool true) (c :: r)
          else if chr "f" c then expect_literal (js "false") (JBool false) (c :: r)
          else if chr "n" c then expect_literal (js "null") JNull (c :: r)
          else if chr "-" c || is_digit c then parse_number (c :: r)
          else Throw unexpected_token
      end
  end

with parse_items (fuel : nat) (s : jsstring) (acc : list JSON)
  : Exn (JSON * jsstring) :=
  match fuel with
  | O => Throw unexpected_token
  | S fuel' =>
      '(item, r) <- parse_value fuel' s ;;
      match skip_ws r with
      | [] => Throw unexpected_end
      | c :: r' =>
          if chr "," c then parse_items fuel' r' (item :: acc)
          else if chr "]" c then Return (JArray (rev (item :: acc)), r')
          else Throw unexpected_token
      end
  end

with parse_members (fuel : nat) (s : jsstring) (acc : list (jsstring * JSON))
  : Exn (JSON * jsstring) :=
  match fuel with
  | O => Throw unexpected_token
  | S fuel' =>
      match skip_ws s with
      | [] => Throw unexpected_end
      | q :: r0 =>
          if (q =? double_quote)%N then
            '(key, r1) <- parse_string_body r0 [] ;;
            match skip_ws r1 with
            | [] => Throw unexpected_end
            | colon :: r2 =>
                if chr ":" colon then
                  '(item, r3) <- parse_value fuel' r2 ;;
                  match skip_ws r3 with
                  | [] => Throw unexpected_end
                  | c :: r4 =>
                      if chr "," c then parse_members fuel' r4 ((key, item) :: acc)
                      else if chr "}" c then
                        Return (JObject (rev ((key, item) :: acc)), r4)
                      else Throw unexpected_token
                  end
                else Throw unexpected_token
            end
          else Throw unexpected_token
      end
  end.

(** [JSON.parse(text)]: one value, with nothing but white space after
    it. *)
Definition JSON_parse (text : jsstring) : Exn JSON :=
  '(v, r) <- parse_value (2 * List.length text + 2) text ;;
  match skip_ws r with
  | [] => Return v
  | _ :: _ => Throw unexpected_token
  end.

End JSONParse.
Import JSONParse.

(* ================================================================== *)
(** * [buffer.toString()]: decoding UTF-8 *)
(* ================================================================== *)

Module Decoding.

Definition byte : Type := N.

(** The code units of the code point [cp]. *)
Definition utf16 (cp : N) : jsstring :=
  if (cp <? 0x10000)%N then [cp]
  else [(0xd800 + (cp - 0x10000) / 0x400)%N; (0xdc00 + (cp - 0x10000) mod 0x400)%N].

(** U+FFFD, which stands for every ill-formed sequence. *)
Definition replacement : jsstring := [0xfffd%N].

(** The decoder between two characters, at the byte [b]: what it emits,
    and the state it is left in: the code point so far, the number of
    continuation bytes still needed, and the bounds of the next one. *)
Definition first_byte (b : byte) : jsstring * (N * N * N * N) :=
  if (b <=? 0x7f)%N then ([b], (0, 0, 0x80, 0xbf))%N
  else if ((0xc2 <=? b) && (b <=? 0xdf))%N then ([], (b - 0xc0, 1, 0x80, 0xbf))%N
  else if ((0xe0 <=? b) && (b <=? 0xef))%N then
    ([], (b - 0xe0, 2, if b =? 0xe0 then 0xa0 else 0x80,
          if b =? 0xed then 0x9f else 0xbf))%N
  else if ((0xf0 <=? b) && (b <=? 0xf4))%N then
    ([], (b - 0xf0, 3, if b =? 0xf0 then 0x90 else 0x80,
          if b =? 0xf4 then 0x8f else 0xbf))%N
  else (replacement, (0, 0, 0x80, 0xbf))%N.

(** The decoder: a byte that cannot continue the sequence under way ends
    it with U+FFFD and is then read as a first byte; so does the end of
    the bytes. *)
Fixpoint decode (bytes : list byte) (cp needed lower upper : N) : jsstring :=
  match bytes with
  | [] => if (needed =? 0)%N then [] else replacement
  | b :: rest =>
      if (needed =? 0)%N then
        let '(out, (cp', needed', lower', upper')) := first_byte b in
        out ++ decode rest cp' needed' lower' upper'
      else if ((lower <=? b) && (b <=? upper))%N then
        let cp' := (cp * 64 + (b - 0x80))%N in
        if (needed =? 1)%N then utf16 cp' ++ decode rest 0%N 0%N 0x80%N 0xbf%N
        else decode rest cp' (needed - 1)%N 0x80%N 0xbf%N
      else
        let '(out, (cp', needed', lower', upper')) := first_byte b in
        replacement ++ out ++ decode rest cp' needed' lower' upper'
  end.

(** [data.toString()] on a [Buffer]. *)
Definition Buffer_toString (data : list byte) : jsstring :=
  decode data 0%N 0%N 0x80%N 0xbf%N.

End Decoding.

(* ================================================================== *)
(** * vw_mcp_server.js: configuration and the command channel *)
(* ================================================================== *)

Module Channel.

Definition TIMEOUT : Z := 30000.

(** The value of an [apiKey] field: absent, [null], a boolean or a
    string. *)
Inductive ApiKey : Type :=
| KeyUndefined
| KeyNull
| KeyBool (b : bool)
| KeyString (s : jsstring).

(** Truthiness, as the conditional operator tests it. *)
Definition truthy (k : ApiKey) : bool :=
  match k with
  | KeyUndefined | KeyNull => false
  | KeyBool b => b
  | KeyString s => negb (jsstring_eqb s [])
  end.

(** The text a template literal inserts for the key. *)
Definition ApiKey_toString (k : ApiKey) : jsstring :=
  match k with
  | KeyUndefined => js "undefined"
  | KeyNull => js "null"
  | KeyBool true => js "true"
  | KeyBool false => js "false"
  | KeyString s => s
  end.

(** A port of the data model: an integer from 1 to 65535. *)
Record Port : Type := {
  port_number : Z;
  port_in_range : ((1 <=? port_number) && (port_number <=? 65535))%Z = true
}.

(** One entry of [config.servers].  A field that the entry does not have
    is [None]. *)
Record ServerEntry : Type := {
  entry_name : option jsstring;
  entry_host : option jsstring;
  entry_port : option Port;
  entry_apiKey : ApiKey
}.

(** The configuration that [loadConfig] returns: [servers] lists the
    entries in the order in which [Object.keys] enumerates them. *)
Record Config : Type := {
  servers : list (jsstring * ServerEntry);
  default : option jsstring
}.

(** What [getServer] returns: the entry's fields under the resolved
    name. *)
Record Server : Type := {
  name : option jsstring;
  host : option jsstring;
  port : option Port;
  apiKey : ApiKey
}.

(** The text a template literal inserts for a string that may be
    [undefined], and for a port. *)
Definition show (s : option jsstring) : jsstring :=
  match s with
  | Some s => s
  | None => js "undefined"
  end.

Definition show_port (p : option Port) : jsstring :=
  match p with
  | Some p => decimal (port_number p)
  | None => js "undefined"
  end.

(** [a || b] on strings that may be [undefined]. *)
Definition or_else (a b : option jsstring) : option jsstring :=
  match a with
  | Some (_ :: _) => a
  | _ => b
  end.

(** [Object.keys(config.servers)] *)
Definition Object_keys (entries : list (jsstring * ServerEntry)) : list jsstring :=
  map fst entries.

(** [keys.join(', ')] *)
Fixpoint join (sep : jsstring) (l : list jsstring) : jsstring :=
  match l with
  | [] => []
  | [x] => x
  | x :: l' => x ++ sep ++ join sep l'
  end.

Fixpoint own_property (entries : list (jsstring * ServerEntry)) (key : jsstring)
  : option ServerEntry :=
  match entries with
  | [] => None
  | (k, e) :: entries' =>
      if jsstring_eqb k key then Some e else own_property entries' key
  end.

(** The names every object inherits from [Object.prototype]. *)
Definition Object_prototype_names : list jsstring :=
  map js ["constructor"; "hasOwnProperty"; "isPrototypeOf";
          "propertyIsEnumerable"; "toLocaleString"; "toString"; "valueOf";
          "__proto__"; "__defineGetter__"; "__defineSetter__";
          "__lookupGetter__"; "__lookupSetter__"]%string.

(** An inherited member is a function or an object without enumerable
    properties of its own: spreading it adds no field. *)
Definition inherited_member : ServerEntry :=
  {| entry_name := None; entry_host := None; entry_port := None;
     entry_apiKey := KeyUndefined |}.

(** [config.servers[serverName]]: an entry of the table or, failing that,
    an inherited member; [None] is [undefined]. *)
Definition servers_get (entries : list (jsstring * ServerEntry)) (key : jsstring)
  : option ServerEntry :=
  match own_property entries key with
  | Some e => Some e
  | None =>
      if existsb (jsstring_eqb key) Object_prototype_names
      then Some inherited_member else None
  end.

(** [name || config.default || Object.keys(config.servers)[0]] *)
Definition serverName (config : Config) (name : option jsstring) : option jsstring :=
  or_else name (or_else (default config) (hd_error (Object_keys (servers config)))).

Definition getServer (config : Config) (name : option jsstring) : Exn Server :=
  let serverName := serverName config name in
  match servers_get (servers config) (show serverName) with
  | None =>
      let available := join (js ", ") (Object_keys (servers config)) in
      Throw (js "Unknown server: " ++ show serverName ++ js ". Available: " ++ available)
  | Some server =>
      Return {| name := match entry_name server with
                        | Some n => Some n
                        | None => serverName
                        end;
                host := entry_host server;
                port := entry_port server;
                apiKey := entry_apiKey server |}
  end.

(** ** The socket *)

(** The calls [sendCommand] makes on its socket. *)
Inductive SocketCall : Type :=
| NewSocket
| SocketSetTimeout (ms : Z)
| SocketConnect (port : option Port) (host : option jsstring)
| SocketWrite (data : jsstring)
| SocketEnd
| SocketDestroy.

(** The events the socket emits.  The chunk of a [data] event is a
    [Buffer], the bytes that arrived; an [error] event carries the
    error's [code] and [message]. *)
Inductive SocketEvent : Type :=
| OnConnect
| OnData (data : list Decoding.byte)
| OnEnd
| OnTimeout
| OnError (code : option jsstring) (message : jsstring).

Inductive Promise : Type :=
| Pending
| Fulfilled (value : JSON)
| Rejected (reason : jsstring).

(** The state of one call: the buffer [response], the promise, the calls
    made on the socket so far (latest last), and the exception that
    escaped an event handler, if one did. *)
Record Call : Type := {
  response : jsstring;
  promise : Promise;
  calls : list SocketCall;
  uncaught : option jsstring
}.

(** [resolve(value)]: settles the promise if it is still pending. *)
Definition resolve (value : JSON) (st : Call) : Call :=
  match promise st with
  | Pending => {| response := response st; promise := Fulfilled value;
                  calls := calls st; uncaught := uncaught st |}
  | _ => st
  end.

(** What [new Promise] does when its executor throws [reason]: it rejects
    the promise if it is still pending. *)
Definition reject (reason : jsstring) (st : Call) : Call :=
  match promise st with
  | Pending => {| response := response st; promise := Rejected reason;
                  calls := calls st; uncaught := uncaught st |}
  | _ => st
  end.

Definition socket_call (c : SocketCall) (st : Call) : Call :=
  {| response := response st; promise := promise st;
     calls := calls st ++ [c]; uncaught := uncaught st |}.

(** The object [{ status: 'error', message }]. *)
Definition error_envelope (message : jsstring) : JSON :=
  JObject [(js "status", JString (js "error")); (js "message", JString message)].

(** [s.split('\n')] *)
Fixpoint split_newline (s : jsstring) : list jsstring :=
  match s with
  | [] => [[]]
  | c :: r =>
      if (c =? 0x0a)%N then [] :: split_newline r
      else match split_newline r with
           | l :: ls => (c :: l) :: ls
           | [] => [[c]]
           end
  end.

(** The members of an object; a later member of the same name wins. *)
Fixpoint member (members : list (jsstring * JSON)) (key : jsstring) : option JSON :=
  match members with
  | [] => None
  | (k, v) :: members' =>
      match member members' key with
      | Some v' => Some v'
      | None => if jsstring_eqb k key then Some v else None
      end
  end.

(** [value.key] for the two names [sendCommand] reads, [status] and
    [code], which no prototype defines: reading them from [null] throws a
    [TypeError], from an object gives the member or [undefined] ([None]),
    from any other value gives [undefined]. *)
Definition get (value : JSON) (key : jsstring) : Exn (option JSON) :=
  match value with
  | JNull =>
      Throw (js "Cannot read properties of null (reading '" ++ key ++ js "')")
  | JObject members => Return (member members key)
  | _ => Return None
  end.

(** [v === 'literal'] *)
Definition is_string (v : option JSON) (literal : jsstring) : bool :=
  match v with
  | Some (JString s) => jsstring_eqb s literal
  | _ => false
  end.

(** [a && b] where evaluating either side may throw. *)
Definition and_then (a : Exn bool) (b : Exn bool) : Exn bool :=
  x <- a ;; if x then b else Return false.

Section sendCommand.

Variable server : Server.
Variable command : jsstring.

(** [server.apiKey ? `AUTH:${server.apiKey} ` : ''] *)
Definition prefix : jsstring :=
  if truthy (apiKey server)
  then js "AUTH:" ++ ApiKey_toString (apiKey server) ++ js " "
  else [].

(** [socket.on('connect', ...)] *)
Definition on_connect (st : Call) : Exn Call :=
  Return (socket_call SocketEnd
            (socket_call (SocketWrite (prefix ++ command ++ [0x0a%N])) st)).

(** [socket.on('data', ...)]: each chunk is decoded by itself. *)
Definition on_data (data : list Decoding.byte) (st : Call) : Exn Call :=
  Return {| response := response st ++ Decoding.Buffer_toString data;
            promise := promise st;
            calls := calls st; uncaught := uncaught st |}.

(** The [try] block of the [end] handler after [JSON.parse]: the value
    it resolves to, or the exception it throws. *)
Definition on_end_result (result : JSON) : Exn JSON :=
  auth_required <-
    and_then (status <- get result (js "status") ;; Return (is_string status (js "error")))
             (code <- get result (js "code") ;; Return (is_string code (js "AUTH_REQUIRED"))) ;;
  if auth_required then
    Return (error_envelope
              (js "Authentication required for '" ++ show (name server)
               ++ js "'. Add apiKey to your config."))
  else
    auth_failed <-
      and_then (status <- get result (js "status") ;; Return (is_string status (js "error")))
               (code <- get result (js "code") ;; Return (is_string code (js "AUTH_FAILED"))) ;;
    if auth_failed then
      Return (error_envelope
                (js "Invalid API key for '" ++ show (name server)
                 ++ js "'. Check your configuration."))
    else Return result.

(** The whole [try] block of the [end] handler, on the buffer
    [response]. *)
Definition on_end_try (response : jsstring) : Exn JSON :=
  let lines := split_newline (trim response) in
  result <- JSON_parse (match lines with
                        | line :: _ => line
                        | [] => js "undefined"
                        end) ;;
  on_end_result result.

(** [socket.on('end', ...)]: the [try] block and its [catch]. *)
Definition on_end (st : Call) : Exn Call :=
  match on_end_try (response st) with
  | Return value => Return (resolve value st)
  | Throw message =>
      Return (resolve (error_envelope (js "Invalid JSON response: " ++ message)) st)
  end.

(** [socket.on('timeout', ...)] *)
Definition on_timeout (st : Call) : Exn Call :=
  Return (resolve
            (error_envelope (js "Connection timed out to " ++ show (host server)
                             ++ js ":" ++ show_port (port server)))
            (socket_call SocketDestroy st)).

(** [socket.on('error', ...)] *)
Definition on_error (code : option jsstring) (message : jsstring) (st : Call)
  : Exn Call :=
  if match code with
     | Some c => jsstring_eqb c (js "ECONNREFUSED")
     | None => false
     end
  then
    Return (resolve
              (error_envelope
                 (js "Connection refused to " ++ show (name server) ++ js " ("
                  ++ show (host server) ++ js ":" ++ show_port (port server)
                  ++ js "). Is CliBridge running?"))
              st)
  else Return (resolve (error_envelope (js "Connection error: " ++ message)) st).

Definition handler (ev : SocketEvent) : Call -> Exn Call :=
  match ev with
  | OnConnect => on_connect
  | OnData data => on_data data
  | OnEnd => on_end
  | OnTimeout => on_timeout
  | OnError code message => on_error code message
  end.

(** The socket emits [ev]: the handler registered for it runs; an
    exception that leaves the handler is uncaught. *)
Definition emit (st : Call) (ev : SocketEvent) : Call :=
  match uncaught st with
  | Some _ => st
  | None =>
      match handler ev st with
      | Return st' => st'
      | Throw message =>
          {| response := response st; promise := promise st;
             calls := calls st; uncaught := Some message |}
      end
  end.

End sendCommand.

Definition initial : Call :=
  {| response := []; promise := Pending; calls := []; uncaught := None |}.

(** The message of the error [ERR_MISSING_ARGS] that [socket.connect]
    throws. *)
Definition ERR_MISSING_ARGS : jsstring :=
  jsq "The 'options' or 'port' or 'path' argument must be specified".

(** [socket.connect(port, host)] with a port of the data model, or none:
    the call throws when the port is [undefined], before any attempt to
    connect; what becomes of an attempt the socket tells through its
    events. *)
Definition socket_connect (port : option Port) (host : option jsstring) (st : Call)
  : Call * option jsstring :=
  (socket_call (SocketConnect port host) st,
   match port with
   | Some _ => None
   | None => Some ERR_MISSING_ARGS
   end).

(** The executor passed to [new Promise]: it ends with the server whose
    socket it has set up, or with none after resolving the promise in the
    [catch] of [getServer]; with the state it leaves; and with the
    exception it throws, if [socket.connect] throws.  The handlers are
    registered before [socket.connect] is called. *)
Definition executor (config : Config) (imageName : option jsstring)
  : option Server * Call * option jsstring :=
  match getServer config imageName with
  | Throw message => (None, resolve (error_envelope message) initial, None)
  | Return server =>
      let '(st, thrown) :=
        socket_connect (port server) (host server)
          (socket_call (SocketSetTimeout TIMEOUT)
             (socket_call NewSocket initial)) in
      (Some server, st, thrown)
  end.

(** [sendCommand(command, imageName)], followed by the events that the
    socket it has created emits.  An exception thrown by the executor
    rejects the promise; the handlers stay registered on the socket. *)
Definition sendCommand (config : Config) (command : jsstring)
    (imageName : option jsstring) (events : list SocketEvent) : Call :=
  let '(server, st, thrown) := executor config imageName in
  let st := match thrown with
            | Some reason => reject reason st
            | None => st
            end in
  match server with
  | None => st
  | Some server => fold_left (emit server command) events st
  end.

End Channel.

(* ================================================================== *)
(** * [Buffer.from(text, 'utf8').toString('base64')] and [JSON.stringify] *)
(* ================================================================== *)

Module Encoding.

Definition byte := N.

(** The UTF-8 bytes of a code point. *)
Definition utf8_code_point (cp : N) : list byte :=
  (if cp <? 0x80 then [cp]
   else if cp <? 0x800 then [0xc0 + cp / 64; 0x80 + cp mod 64]
   else if cp <? 0x10000 then
     [0xe0 + cp / 4096; 0x80 + (cp / 64) mod 64; 0x80 + cp mod 64]
   else
     [0xf0 + cp / 262144; 0x80 + (cp / 4096) mod 64;
      0x80 + (cp / 64) mod 64; 0x80 + cp mod 64])%N.

Definition is_high_surrogate (c : codeunit) : bool := hexrange 0xd800 0xdbff c.
Definition is_low_surrogate (c : codeunit) : bool := hexrange 0xdc00 0xdfff c.

(** [Buffer.from(s, 'utf8')]: a surrogate pair is one code point, a
    surrogate on its own becomes U+FFFD. *)
Fixpoint utf8 (s : jsstring) : list byte :=
  match s with
  | [] => []
  | c :: r =>
      if is_high_surrogate c then
        match r with
        | d :: r' =>
            if is_low_surrogate d then
              utf8_code_point (0x10000 + (c - 0xd800) * 0x400 + (d - 0xdc00))%N
              ++ utf8 r'
            else utf8_code_point 0xfffd ++ utf8 r
        | [] => utf8_code_point 0xfffd
        end
      else if is_low_surrogate c then utf8_code_point 0xfffd ++ utf8 r
      else utf8_code_point c ++ utf8 r
  end.

(** The Base64 digit of a six-bit value. *)
Definition base64_digit (n : N) : codeunit :=
  (if n <? 26 then cu "A" + n
   else if n <? 52 then cu "a" + (n - 26)
   else if n <? 62 then cu "0" + (n - 52)
   else if n =? 62 then cu "+"
   else cu "/")%N.

(** [buffer.toString('base64')] *)
Fixpoint base64 (bytes : list byte) : jsstring :=
  match bytes with
  | [] => []
  | [a] =>
      [base64_digit (a / 4); base64_digit ((a mod 4) * 16); cu "="; cu "="]%N
  | [a; b] =>
      [base64_digit (a / 4); base64_digit ((a mod 4) * 16 + b / 16);
       base64_digit ((b mod 16) * 4); cu "="]%N
  | a :: b :: c :: rest =>
      [base64_digit (a / 4); base64_digit ((a mod 4) * 16 + b / 16);
       base64_digit ((b mod 16) * 4 + c / 64); base64_digit (c mod 64)]%N
      ++ base64 rest
  end.

Definition hex_digit (n : N) : codeunit :=
  (if n <? 10 then cu "0" + n else cu "a" + (n - 10))%N.

(** The escape [\uXXXX] of a code unit. *)
Definition unicode_escape (c : codeunit) : jsstring :=
  js "\u" ++ [hex_digit ((c / 4096) mod 16); hex_digit ((c / 256) mod 16);
              hex_digit ((c / 16) mod 16); hex_digit (c mod 16)]%N.

(** The characters [JSON.stringify] writes between the quotes of a
    string. *)
Fixpoint quote_body (s : jsstring) : jsstring :=
  match s with
  | [] => []
  | c :: r =>
      if (c =? 0x08)%N then js "\b" ++ quote_body r
      else if (c =? 0x09)%N then js "\t" ++ quote_body r
      else if (c =? 0x0a)%N then js "\n" ++ quote_body r
      else if (c =? 0x0c)%N then js "\f" ++ quote_body r
      else if (c =? 0x0d)%N then js "\r" ++ quote_body r
      else if (c =? double_quote)%N then js "\" ++ [double_quote] ++ quote_body r
      else if chr "\" c then js "\\" ++ quote_body r
      else if (c <? 0x20)%N then unicode_escape c ++ quote_body r
      else if is_high_surrogate c then
        match r with
        | d :: r' =>
            if is_low_surrogate d then c :: d :: quote_body r'
            else unicode_escape c ++ quote_body r
        | [] => unicode_escape c
        end
      else if is_low_surrogate c then unicode_escape c ++ quote_body r
      else c :: quote_body r
  end.

Definition quote (s : jsstring) : jsstring :=
  [double_quote] ++ quote_body s ++ [double_quote].

(** [JSON.stringify] of an array of strings. *)
Definition stringify_strings (l : list jsstring) : jsstring :=
  js "[" ++ Channel.join (js ",") (map quote l) ++ js "]".

End Encoding.

(* ================================================================== *)
(** * vw_mcp_server.js: the tool handlers *)
(* ================================================================== *)

Module Tools.
Import Validation Channel Encoding.

(** The values of [z.enum(['instance', 'class'])]. *)
Inductive Side : Type := instance | class.

Definition Side_toString (side : Side) : jsstring :=
  match side with
  | instance => js "instance"
  | class => js "class"
  end.

(** A tool with the arguments its handler receives once the schema has
    been applied: every text argument is a string. *)
Inductive Tool : Type :=
| ping
| classes (pattern : jsstring)
| class_info (class_name : jsstring)
| methods (class_name : jsstring) (side : Side)
| source (class_name selector : jsstring)
| fullsource (class_name : jsstring)
| hierarchy (class_name : jsstring)
| eval_smalltalk (expression : jsstring)
| namespaces
| search (pattern : jsstring)
| senders (selector : jsstring)
| implementors (selector : jsstring)
| messages (class_name selector : jsstring)
| edit_method (class_name selector method_source : jsstring) (side : Side)
| undo_edit (class_name selector : jsstring) (side : Side)
| create_class (name superclass : jsstring)
    (instance_variables class_variables class_instance_variables : list jsstring)
    (category : jsstring).

(** The validations a handler runs, in its order; the first failure is
    returned. *)
Fixpoint first_invalid (checks : list ValidationResult) : option ValidationResult :=
  match checks with
  | [] => None
  | r :: checks' => if valid r then first_invalid checks' else Some r
  end.

Definition image_value (image : option jsstring) : JSValue :=
  match image with
  | Some s => VString s
  | None => VUndefined
  end.

Definition validations (tool : Tool) (image : option jsstring)
  : list ValidationResult :=
  match tool with
  | ping | namespaces => []
  | classes pattern | search pattern => [validatePattern (VString pattern)]
  | class_info class_name | methods class_name _
  | fullsource class_name | hierarchy class_name =>
      [validateClassName (VString class_name)]
  | source class_name selector | messages class_name selector
  | undo_edit class_name selector _ =>
      [validateClassName (VString class_name); validateSelector (VString selector)]
  | eval_smalltalk expression => [validateExpression (VString expression)]
  | senders selector | implementors selector => [validateSelector (VString selector)]
  | edit_method class_name selector method_source _ =>
      [validateClassName (VString class_name); validateSelector (VString selector);
       validateSource (VString method_source)]
  | create_class name superclass _ _ _ _ =>
      [validateClassName (VString name); validateClassName (VString superclass)]
  end ++ [validateServerName (image_value image)].

(** The verb a tool's command starts with. *)
Definition verb (tool : Tool) : jsstring :=
  match tool with
  | ping => js "PING"
  | classes _ => js "CLASSES"
  | class_info _ => js "CLASS"
  | methods _ _ => js "METHODS"
  | source _ _ => js "SOURCE"
  | fullsource _ => js "FULLSOURCE"
  | hierarchy _ => js "HIERARCHY"
  | eval_smalltalk _ => js "EVAL"
  | namespaces => js "NAMESPACES"
  | search _ => js "SEARCH"
  | senders _ => js "SENDERS"
  | implementors _ => js "IMPLEMENTORS"
  | messages _ _ => js "MESSAGES"
  | edit_method _ _ _ _ => js "EDIT"
  | undo_edit _ _ _ => js "UNDO"
  | create_class _ _ _ _ _ _ => js "CREATECLASS"
  end.

Definition sp : jsstring := js " ".

(** The text after the verb in the command a handler passes to
    [sendCommand]. *)
Definition arguments (tool : Tool) : jsstring :=
  match tool with
  | ping | namespaces => []
  | classes pattern | search pattern => sp ++ pattern
  | class_info class_name | fullsource class_name | hierarchy class_name =>
      sp ++ class_name
  | methods class_name side => sp ++ class_name ++ sp ++ Side_toString side
  | source class_name selector | messages class_name selector =>
      sp ++ class_name ++ sp ++ selector
  | eval_smalltalk expression => sp ++ expression
  | senders selector | implementors selector => sp ++ selector
  | edit_method class_name selector method_source side =>
      sp ++ class_name ++ sp ++ selector ++ sp ++ Side_toString side ++ sp
      ++ base64 (utf8 method_source)
  | undo_edit class_name selector side =>
      sp ++ class_name ++ sp ++ selector ++ sp ++ Side_toString side
  | create_class name superclass instance_variables class_variables
      class_instance_variables category =>
      let payload :=
        jsq "{'name':" ++ quote name
        ++ jsq ",'superclass':" ++ quote superclass
        ++ jsq ",'instanceVariables':" ++ stringify_strings instance_variables
        ++ jsq ",'classVariables':" ++ stringify_strings class_variables
        ++ jsq ",'classInstanceVariables':"
        ++ stringify_strings class_instance_variables
        ++ jsq ",'category':" ++ quote category ++ js "}" in
      sp ++ base64 (utf8 payload)
  end.

Definition command_of (tool : Tool) : jsstring := verb tool ++ arguments tool.

(** A handler up to its call of [sendCommand]: the validation error it
    returns, or the state of the call it makes. *)
Definition run (config : Config) (tool : Tool) (image : option jsstring)
    (events : list SocketEvent) : ValidationResult + Call :=
  match first_invalid (validations tool image) with
  | Some failure => inl failure
  | None => inr (sendCommand config (command_of tool) image events)
  end.

(** The data the handler has written to its socket. *)
Definition written (st : Call) : list jsstring :=
  flat_map (fun c => match c with SocketWrite data => [data] | _ => [] end)
           (calls st).

End Tools.

(* ================================================================== *)
(** * The shapes of the specification *)
(* ================================================================== *)

(** The selector and class-name grammars as the specification words them,
    to be compared with the patterns of the source. *)
Module Shapes.

Definition lowercase (c : codeunit) : bool := range "a" "z" c.
Definition uppercase (c : codeunit) : bool := range "A" "Z" c.
Definition digit (c : codeunit) : bool := range "0" "9" c.
Definition alphanumeric (c : codeunit) : bool :=
  lowercase c || uppercase c || digit c.

(** A lowercase-led alphanumeric identifier. *)
Definition lowercase_led (s : jsstring) : Prop :=
  exists c rest, s = c :: rest /\ lowercase c = true /\ forallb alphanumeric rest = true.

(** A letter-led alphanumeric identifier. *)
Definition letter_led (s : jsstring) : Prop :=
  exists c rest, s = c :: rest /\ (lowercase c || uppercase c) = true
                 /\ forallb alphanumeric rest = true.

(** The fixed symbol set of binary selectors. *)
Definition binary_symbols : jsstring := js "+-*/\~<>=@%|&?!,".

Definition unary (s : jsstring) : Prop := lowercase_led s.

Definition binary (s : jsstring) : Prop :=
  s <> [] /\ Forall (fun c => In c binary_symbols) s.

(** One or more lowercase-led segments, each ended by a colon, one after
    the other. *)
Definition keyword (s : jsstring) : Prop :=
  exists segments, segments <> [] /\ Forall lowercase_led segments
                   /\ s = List.concat (map (fun segment => segment ++ js ":") segments).

(** Letter-led segments separated by single dots. *)
Definition dotted_identifier (s : jsstring) : Prop :=
  exists segments, segments <> [] /\ Forall letter_led segments
                   /\ s = Channel.join (js ".") segments.

End Shapes.

(* ================================================================== *)
(** * Traces of socket events, and two configurations *)
(* ================================================================== *)

Module Traces.
Import Channel.

Definition newline : codeunit := 0x0a%N.

(** The events that end an exchange. *)
Definition terminal (ev : SocketEvent) : bool :=
  match ev with
  | OnEnd | OnTimeout | OnError _ _ => true
  | OnConnect | OnData _ => false
  end.

Definition is_connect (ev : SocketEvent) : bool :=
  match ev with
  | OnConnect => true
  | _ => false
  end.

(** The text the data events of a trace deliver, in order, each chunk
    decoded by itself. *)
Fixpoint received (events : list SocketEvent) : jsstring :=
  match events with
  | [] => []
  | OnData data :: events' => Decoding.Buffer_toString data ++ received events'
  | _ :: events' => received events'
  end.

(** The bytes of the data events of a trace, in order. *)
Fixpoint received_bytes (events : list SocketEvent) : list Decoding.byte :=
  match events with
  | [] => []
  | OnData data :: events' => data ++ received_bytes events'
  | _ :: events' => received_bytes events'
  end.

(** The bytes of the characters of ASCII. *)
Definition ascii_byte (b : Decoding.byte) : bool := (b <=? 0x7f)%N.

(** The chunk of a [data] event holds bytes of ASCII only. *)
Definition ascii_data (ev : SocketEvent) : bool :=
  match ev with
  | OnData data => forallb ascii_byte data
  | _ => true
  end.

(** The text before the first line feed. *)
Fixpoint first_line (s : jsstring) : jsstring :=
  match s with
  | [] => []
  | c :: r => if (c =? newline)%N then [] else c :: first_line r
  end.

(** No line feed occurs in [s]. *)
Definition nlfree (s : jsstring) : bool := negb (existsb (N.eqb newline) s).

(** [line] ends with a line feed, its only one. *)
Definition single_line (line : jsstring) : Prop :=
  exists body, line = body ++ [newline] /\ ~ In newline body.

(** The configuration built from the environment when no variable is
    set. *)
Definition legacy_config : Config :=
  {| servers :=
       [(js "default",
         {| entry_name := None; entry_host := Some (js "localhost");
            entry_port := Some {| port_number := 9999; port_in_range := eq_refl |};
            entry_apiKey := KeyUndefined |})];
     default := Some (js "default") |}.

(** A configuration with one server, whose [apiKey] is [key]. *)
Definition config_with_key (key : ApiKey) : Config :=
  {| servers :=
       [(js "default",
         {| entry_name := None; entry_host := Some (js "localhost");
            entry_port := Some {| port_number := 9999; port_in_range := eq_refl |};
            entry_apiKey := key |})];
     default := Some (js "default") |}.

(** The state in which the executor leaves the call for [server]: the
    promise is rejected already when [socket.connect] has thrown. *)
Definition started (server : Server) : Call :=
  {| response := [];
     promise := match port server with
                | Some _ => Pending
                | None => Rejected ERR_MISSING_ARGS
                end;
     calls := [NewSocket; SocketSetTimeout TIMEOUT;
               SocketConnect (port server) (host server)];
     uncaught := None |}.

(** The parsed response is an error envelope with the code [code]. *)
Definition error_with_code (result : JSON) (code : jsstring) : Prop :=
  exists members,
    result = JObject members
    /\ member members (js "status") = Some (JString (js "error"))
    /\ member members (js "code") = Some (JString code).

(** The configuration of the unknown-server scenario: [dev] and [prod]. *)
Definition dev_prod_config : Config :=
  {| servers :=
       [(js "dev",
         {| entry_name := None; entry_host := Some (js "dev.local");
            entry_port := Some {| port_number := 9998; port_in_range := eq_refl |};
            entry_apiKey := KeyUndefined |});
        (js "prod",
         {| entry_name := None; entry_host := Some (js "prod.local");
            entry_port := Some {| port_number := 9999; port_in_range := eq_refl |};
            entry_apiKey := KeyUndefined |})];
     default := Some (js "dev") |}.

End Traces.

(* ================================================================== *)
(** * vw_mcp_server.js: what the handlers return *)
(* ================================================================== *)

Module Display.
Import Validation Channel Tools.

(** The double nearest to [m * 10^e] is zero: [m] is zero, or the value is
    at most [2^-1075], half the least positive double. *)
Definition number_is_zero (m e : Z) : bool :=
  (m =? 0)%Z || ((e <? 0)%Z && (Z.abs m * 2 ^ 1075 <=? 10 ^ (- e))%Z).

(** Truthiness of a value that may be [undefined], as [||] tests it. *)
Definition truthy_value (v : option JSON) : bool :=
  match v with
  | None | Some JNull => false
  | Some (JBool b) => b
  | Some (JNumber m e) => negb (number_is_zero m e)
  | Some (JString s) => negb (jsstring_eqb s [])
  | Some (JArray _) | Some (JObject _) => true
  end.

(** [value.key] where [value] may be [undefined]; the names read are
    [message], [data], [result] and [class], which no prototype
    defines. *)
Definition get_of (value : option JSON) (key : jsstring) : Exn (option JSON) :=
  match value with
  | None =>
      Throw (js "Cannot read properties of undefined (reading '" ++ key ++ js "')")
  | Some v => get v key
  end.

(** [items.map(f)] where [f] may throw: the first exception ends it. *)
Definition map_exn {A B : Type} (f : A -> Exn B) : list A -> Exn (list B) :=
  fix each (items : list A) : Exn (list B) :=
    match items with
    | [] => Return []
    | item :: items' =>
        b <- f item ;;
        bs <- each items' ;;
        Return (b :: bs)
    end.

Section Builtins.

(** The digits [String(x)] gives for the number [m * 10^e], and the text
    of [JSON.stringify(data, null, 2)]: both are the engine's. *)
Variable Number_toString : Z -> Z -> jsstring.
Variable JSON_stringify_indented : JSON -> jsstring.

(** [String(v)].  An array is its elements joined by commas, [null]
    elements giving nothing.  An object is converted by the [toString] it
    has: the one of [Object.prototype], unless a member of that name hides
    it; no member is callable, and [valueOf], a member or inherited, gives
    no primitive either, so the conversion then throws a [TypeError]. *)
Fixpoint ToString (v : JSON) : Exn jsstring :=
  match v with
  | JNull => Return (js "null")
  | JBool true => Return (js "true")
  | JBool false => Return (js "false")
  | JNumber m e => Return (Number_toString m e)
  | JString s => Return s
  | JArray items =>
      texts <- map_exn (fun item => match item with
                                    | JNull => Return []
                                    | _ => ToString item
                                    end) items ;;
      Return (join (js ",") texts)
  | JObject members =>
      match member members (js "toString") with
      | Some _ => Throw (js "Cannot convert object to primitive value")
      | None => Return (js "[object Object]")
      end
  end.

(** The text a template literal inserts for a value that may be
    [undefined]. *)
Definition template (v : option JSON) : Exn jsstring :=
  match v with
  | None => Return (js "undefined")
  | Some v => ToString v
  end.

Definition formatResponse (result : JSON) : Exn jsstring :=
  status <- get result (js "status") ;;
  if is_string status (js "error") then
    message <- get result (js "message") ;;
    text <- (if truthy_value message then template message
             else Return (js "Unknown error")) ;;
    Return (js "Error: " ++ text)
  else
    data <- get result (js "data") ;;
    match data with
    | None | Some JNull => Return (js "No data returned")
    | Some (JString s) => Return s
    | Some (JArray items) =>
        texts <- map_exn ToString items ;;
        Return (join [Traces.newline] texts)
    | Some (JObject members) => Return (JSON_stringify_indented (JObject members))
    | Some d => ToString d
    end.

(** What a handler gives back: the text of its one content item and the
    [isError] flag, or nothing yet while it awaits the channel, or the
    exception it throws. *)
Inductive Outcome : Type :=
| Content (text : jsstring) (isError : bool)
| Suspended
| Raised (message : jsstring).

Definition validationError (result : ValidationResult) : Outcome :=
  Content (js "Validation error: " ++ show (error result)) true.

(** A handler: its validations, then [await sendCommand(...)], then the
    text [respond] makes of the result. *)
Definition handle (config : Config) (tool : Tool) (image : option jsstring)
    (events : list SocketEvent) (respond : JSON -> Exn jsstring) : Outcome :=
  match first_invalid (validations tool image) with
  | Some failure => validationError failure
  | None =>
      match promise (sendCommand config (command_of tool) image events) with
      | Pending => Suspended
      | Rejected reason => Raised reason
      | Fulfilled result =>
          match respond result with
          | Return text => Content text false
          | Throw message => Raised message
          end
      end
  end.

(** The tool [ping]. *)
Definition ping_respond (config : Config) (image : option jsstring) (result : JSON)
  : Exn jsstring :=
  status <- get result (js "status") ;;
  if is_string status (js "ok") then
    server <- getServer config image ;;
    Return (js "Connected to CliBridge '" ++ show (name server) ++ js "' at "
            ++ show (host server) ++ js ":" ++ show_port (port server))
  else formatResponse result.

Definition ping_handler (config : Config) (image : option jsstring)
    (events : list SocketEvent) : Outcome :=
  handle config ping image events (ping_respond config image).



(** The tool [eval_smalltalk]. *)
Definition eval_respond (result : JSON) : Exn jsstring :=
  status <- get result (js "status") ;;
  if is_string status (js "ok") then
    d <- get result (js "data") ;;
    value <- get_of d (js "result") ;;
    value_text <- template value ;;
    class_name <- get_of d (js "class") ;;
    class_text <- template class_name ;;
    Return (value_text ++ js " (" ++ class_text ++ js ")")
  else formatResponse result.

Definition eval_handler (config : Config) (expression : jsstring)
    (image : option jsstring) (events : list SocketEvent) : Outcome :=
  handle config (eval_smalltalk expression) image events eval_respond.

End Builtins.

(** The tool [list_images]: one line for each entry of [config.servers]. *)
Definition image_line (config : Config) (entry : jsstring * ServerEntry) : jsstring :=
  let '(name, s) := entry in
  let isDefault :=
    if match default config with
       | Some d => jsstring_eqb name d
       | None => false
       end
    then js " (default)" else [] in
  let hasAuth := if truthy (entry_apiKey s) then js " [auth]" else [] in
  name ++ js ": " ++ show (entry_host s) ++ js ":" ++ show_port (entry_port s)
  ++ hasAuth ++ isDefault.

Definition list_images (config : Config) : jsstring :=
  join [Traces.newline] (map (image_line config) (servers config)).

End Display.

(* ================================================================== *)
(** * Notions used to state the further properties *)
(* ================================================================== *)

Module Notions.
Import Validation Channel Traces Tools Encoding.

Definition space : codeunit := 0x20%N.

(** [s.split(' ')]: the fields between the spaces of [s]. *)
Fixpoint fields (s : jsstring) : list jsstring :=
  match s with
  | [] => [[]]
  | c :: r =>
      if (c =? space)%N then [] :: fields r
      else match fields r with
           | f :: fs => (c :: f) :: fs
           | [] => [[c]]
           end
  end.

(** No space occurs in [s]. *)
Definition spaceless (s : jsstring) : Prop := Forall (fun c => c <> space) s.

(** The arguments a handler puts after the verb of its command. *)
Definition arguments_of (tool : Tool) : list jsstring :=
  match tool with
  | ping | namespaces => []
  | classes pattern | search pattern => [pattern]
  | class_info class_name | fullsource class_name | hierarchy class_name =>
      [class_name]
  | methods class_name side => [class_name; Side_toString side]
  | source class_name selector | messages class_name selector =>
      [class_name; selector]
  | eval_smalltalk expression => [expression]
  | senders selector | implementors selector => [selector]
  | edit_method class_name selector method_source side =>
      [class_name; selector; Side_toString side; base64 (utf8 method_source)]
  | undo_edit class_name selector side =>
      [class_name; selector; Side_toString side]
  | create_class _ _ _ _ _ _ as tool =>
      (* the Base64 text of the payload: what follows the space *)
      [skipn 1 (arguments tool)]
  end.

(** The tools whose argument is free text: a pattern or an expression. *)
Definition free_text (tool : Tool) : bool :=
  match tool with
  | classes _ | search _ | eval_smalltalk _ => true
  | _ => false
  end.

(** A letter or digit first and last, letters, digits, hyphens and dots
    between. *)
Definition host_shape (s : jsstring) : Prop :=
  exists c, host_edge c = true
            /\ (s = [c]
                \/ exists middle d, s = c :: middle ++ [d]
                                    /\ forallb host_inner middle = true
                                    /\ host_edge d = true).

(** A letter, then letters, digits, underscores and hyphens. *)
Definition server_name_shape (s : jsstring) : Prop :=
  exists c rest, s = c :: rest /\ server_name_first c = true
                 /\ forallb server_name_rest rest = true.

(** The calls an event makes on the socket of [server]. *)
Definition calls_on (server : Server) (command : jsstring) (ev : SocketEvent)
  : list SocketCall :=
  match ev with
  | OnConnect => [SocketWrite (prefix server ++ command ++ [newline]); SocketEnd]
  | OnTimeout => [SocketDestroy]
  | OnData _ | OnEnd | OnError _ _ => []
  end.

(** Every character class of [r] lies within [P]. *)
Fixpoint classes_within (P : codeunit -> Prop) (r : Regex.regex) : Prop :=
  match r with
  | Regex.Empty | Regex.Eps => True
  | Regex.Class p => forall c, p c = true -> P c
  | Regex.Cat r1 r2 | Regex.Alt r1 r2 => classes_within P r1 /\ classes_within P r2
  | Regex.Star r1 => classes_within P r1
  end.

(** [String(v)] cannot convert [v]: an object with a member named
    [toString], or an array with an element that cannot be converted. *)
Fixpoint unprintable (v : JSON) : bool :=
  match v with
  | JObject members =>
      match member members (js "toString") with
      | Some _ => true
      | None => false
      end
  | JArray items => existsb unprintable items
  | _ => false
  end.

(** [formatResponse] has to convert a value that cannot be converted:
    the message of an envelope with the status "error", or an element of
    an array of data in another envelope. *)
Definition undisplayable (value : JSON) : Prop :=
  exists members,
    value = JObject members
    /\ ((member members (js "status") = Some (JString (js "error"))
         /\ exists m, member members (js "message") = Some m
                      /\ unprintable m = true)
        \/ (member members (js "status") <> Some (JString (js "error"))
            /\ exists items, member members (js "data") = Some (JArray items)
                             /\ existsb unprintable items = true)).

(** The computation throws. *)
Definition throws {A : Type} (m : Exn A) : Prop := exists message, m = Throw message.

(** The handler throws: the promise it returns is rejected. *)
Definition raises (outcome : Display.Outcome) : Prop :=
  match outcome with
  | Display.Raised _ => True
  | Display.Content _ _ | Display.Suspended => False
  end.

(** Two tables of servers that differ at most in the text of their
    truthy API keys. *)
Definition same_but_keys (a b : list (jsstring * ServerEntry)) : Prop :=
  Forall2 (fun x y =>
             fst x = fst y
             /\ entry_host (snd x) = entry_host (snd y)
             /\ entry_port (snd x) = entry_port (snd y)
             /\ truthy (entry_apiKey (snd x)) = truthy (entry_apiKey (snd y)))
          a b.

End Notions.

(* ================================================================== *)
(** * Properties *)
(* ================================================================== *)

(** ** Strings *)

Lemma jsstring_eqb_eq a b : jsstring_eqb a b = true <-> a = b.
Proof.
  unfold jsstring_eqb. destruct (list_eq_dec N.eq_dec a b); split; congruence.
Qed.

Lemma jsstring_eqb_refl a : jsstring_eqb a a = true.
Proof. now apply jsstring_eqb_eq. Qed.

Lemma jsstring_eqb_neq a b : jsstring_eqb a b = false <-> a <> b.
Proof.
  unfold jsstring_eqb. destruct (list_eq_dec N.eq_dec a b); split; congruence.
Qed.

Lemma starts_with_spec p s : starts_with p s = true <-> exists t, s = p ++ t.
Proof.
  revert s. induction p as [|a p IH]; intros s; simpl.
  - split; [intros _; now exists s | reflexivity].
  - destruct s as [|b s].
    + split; [discriminate | intros [t H]; discriminate].
    + rewrite andb_true_iff, N.eqb_eq, IH. split.
      * intros [-> [t ->]]. now exists t.
      * intros [t H]. injection H as -> ->. split; [reflexivity | now exists t].
Qed.

Lemma includes_spec needle hay : includes needle hay = true <-> Includes needle hay.
Proof.
  induction hay as [|b hay IH].
  - simpl. rewrite orb_false_r, starts_with_spec. split.
    + intros [t H]. exists [], t. exact H.
    + intros [pre [post H]]. destruct pre; [now exists post | discriminate].
  - cbn [includes]. rewrite orb_true_iff, starts_with_spec, IH. split.
    + intros [[t H] | [pre [post H]]].
      * exists [], t. exact H.
      * exists (b :: pre), post. now rewrite H.
    + intros [pre [post H]]. destruct pre as [|x pre].
      * left. now exists post.
      * right. injection H as -> ->. now exists pre, post.
Qed.

(** ** Regular expressions: the matcher decides the language *)

Module RegexFacts.

Lemma Lang_Empty_inv s : Lang Empty s -> False.
Proof. intros H; inversion H. Qed.

Lemma Lang_Eps_inv s : Lang Eps s -> s = [].
Proof. intros H; now inversion H. Qed.

Lemma Lang_Class_inv p s : Lang (Class p) s -> exists c, s = [c] /\ p c = true.
Proof. intros H; inversion H; subst; eauto. Qed.

Lemma Lang_Cat_inv r1 r2 s :
  Lang (Cat r1 r2) s -> exists s1 s2, s = s1 ++ s2 /\ Lang r1 s1 /\ Lang r2 s2.
Proof. intros H; inversion H; subst; eauto. Qed.

Lemma Lang_Alt_inv r1 r2 s : Lang (Alt r1 r2) s -> Lang r1 s \/ Lang r2 s.
Proof. intros H; inversion H; subst; auto. Qed.

Lemma nullable_Lang r : nullable r = true <-> Lang r [].
Proof.
  induction r as [| |p|r1 IH1 r2 IH2|r1 IH1 r2 IH2|r IH]; simpl.
  - split; [discriminate | intros H; inversion H].
  - split; [constructor | reflexivity].
  - split; [discriminate | intros H; inversion H].
  - rewrite andb_true_iff, IH1, IH2. split.
    + intros [H1 H2]. exact (LCat H1 H2).
    + intros H. apply Lang_Cat_inv in H as [s1 [s2 [E [H1 H2]]]].
      symmetry in E. apply app_eq_nil in E as [-> ->]. now split.
  - rewrite orb_true_iff, IH1, IH2. split.
    + intros [H|H]; [now apply LAltL | now apply LAltR].
    + apply Lang_Alt_inv.
  - split; [constructor | reflexivity].
Qed.

Lemma star_cons_inv r c s :
  Lang (Star r) (c :: s) ->
  exists s1 s2, s = s1 ++ s2 /\ Lang r (c :: s1) /\ Lang (Star r) s2.
Proof.
  intros H. remember (Star r) as r0 eqn:Er. remember (c :: s) as s0 eqn:Es.
  revert s Es.
  induction H as [| | | | | |r' s1 s2 H1 _ H2 IH2]; intros t Et; try discriminate.
  injection Er as ->. destruct s1 as [|x s1]; simpl in Et.
  - now apply IH2.
  - injection Et as Ex Et. subst x t. now exists s1, s2.
Qed.

Lemma deriv_Lang r : forall c s, Lang (deriv c r) s <-> Lang r (c :: s).
Proof.
  induction r as [| |p|r1 IH1 r2 IH2|r1 IH1 r2 IH2|r IH]; intros c s; simpl.
  - split; intros H; inversion H.
  - split; intros H; inversion H.
  - destruct (p c) eqn:E; split; intros H.
    + apply Lang_Eps_inv in H as ->. now constructor.
    + apply Lang_Class_inv in H as [c' [E' _]]. injection E' as _ ->. constructor.
    + now apply Lang_Empty_inv in H.
    + apply Lang_Class_inv in H as [c' [E' H]]. injection E' as -> _. congruence.
  - destruct (nullable r1) eqn:N.
    + split; intros H.
      * apply Lang_Alt_inv in H as [H|H].
        -- apply Lang_Cat_inv in H as [s1 [s2 [-> [H1 H2]]]].
           apply IH1 in H1. exact (LCat H1 H2).
        -- apply IH2 in H. apply nullable_Lang in N. exact (LCat N H).
      * apply Lang_Cat_inv in H as [s1 [s2 [E [H1 H2]]]].
        destruct s1 as [|x s1]; simpl in E.
        -- subst s2. apply LAltR. now apply IH2.
        -- injection E as -> ->. apply LAltL. apply LCat; [now apply IH1 | assumption].
    + split; intros H.
      * apply Lang_Cat_inv in H as [s1 [s2 [-> [H1 H2]]]].
        apply IH1 in H1. exact (LCat H1 H2).
      * apply Lang_Cat_inv in H as [s1 [s2 [E [H1 H2]]]].
        destruct s1 as [|x s1]; simpl in E.
        -- apply nullable_Lang in H1. congruence.
        -- injection E as -> ->. apply LCat; [now apply IH1 | assumption].
  - split; intros H; apply Lang_Alt_inv in H as [H|H].
    + apply LAltL. now apply IH1.
    + apply LAltR. now apply IH2.
    + apply LAltL. now apply IH1.
    + apply LAltR. now apply IH2.
  - split; intros H.
    + apply Lang_Cat_inv in H as [s1 [s2 [-> [H1 H2]]]].
      apply IH in H1. exact (LStarS H1 H2).
    + apply star_cons_inv in H as [s1 [s2 [-> [H1 H2]]]].
      apply LCat; [now apply IH | assumption].
Qed.

Theorem matches_Lang s : forall r, matches r s = true <-> Lang r s.
Proof.
  induction s as [|c s IH]; intros r; simpl.
  - apply nullable_Lang.
  - rewrite IH. apply deriv_Lang.
Qed.

End RegexFacts.

(** ** The languages of the patterns of [lib/validation.js] *)

Module PatternFacts.
Import RegexFacts Validation.

Lemma forallb_pointwise (f g : codeunit -> bool) s :
  (forall c, f c = g c) -> forallb f s = forallb g s.
Proof. intros E. induction s as [|c s IH]; simpl; [reflexivity | now rewrite E, IH]. Qed.

Lemma Lang_star_class p s : Lang (Star (Class p)) s <-> forallb p s = true.
Proof.
  split.
  - intros H. remember (Star (Class p)) as r eqn:Er.
    induction H as [| | | | | |r' s1 s2 H1 _ _ IH2]; try discriminate.
    + reflexivity.
    + injection Er as ->. apply Lang_Class_inv in H1 as [c [-> Hc]].
      simpl. rewrite Hc. now apply IH2.
  - induction s as [|c s IH]; simpl; intros H.
    + constructor.
    + apply andb_true_iff in H as [Hc Hs].
      exact (LStarS (LClass p c Hc) (IH Hs)).
Qed.

Lemma Lang_star_any s : Lang (Star any) s.
Proof. apply Lang_star_class. induction s; simpl; auto. Qed.

Lemma Lang_star_segments r s :
  Lang (Star r) s <-> exists segments, Forall (Lang r) segments /\ s = List.concat segments.
Proof.
  split.
  - intros H. remember (Star r) as r0 eqn:Er.
    induction H as [| | | | | |r' s1 s2 H1 _ _ IH2]; try discriminate.
    + exists []. split; [constructor | reflexivity].
    + injection Er as ->. destruct (IH2 eq_refl) as [segments [HF ->]].
      exists (s1 :: segments). split; [now constructor | reflexivity].
  - intros [segments [HF ->]]. induction HF as [|seg segments Hseg _ IH]; simpl.
    + constructor.
    + exact (LStarS Hseg IH).
Qed.

(** A character of class [p] followed by characters of class [q]. *)
Lemma Lang_led p q s :
  Lang (Cat (Class p) (Star (Class q))) s <->
  exists c rest, s = c :: rest /\ p c = true /\ forallb q rest = true.
Proof.
  split.
  - intros H. apply Lang_Cat_inv in H as [s1 [s2 [-> [H1 H2]]]].
    apply Lang_Class_inv in H1 as [c [-> Hc]]. apply Lang_star_class in H2.
    now exists c, s2.
  - intros [c [rest [-> [Hc Hrest]]]].
    exact (LCat (LClass p c Hc) (proj2 (Lang_star_class q rest) Hrest)).
Qed.

(** [/[...]/.test(s)] finds a character of the class in [s]. *)
Lemma test_search_class p s : test_search (Class p) s = existsb p s.
Proof.
  apply eq_true_iff_eq. unfold test_search. rewrite matches_Lang, existsb_exists. split.
  - intros H. apply Lang_Cat_inv in H as [s1 [s2 [-> [_ H]]]].
    apply Lang_Cat_inv in H as [s3 [s4 [-> [H _]]]].
    apply Lang_Class_inv in H as [c [-> Hc]].
    exists c. split; [| exact Hc]. apply in_or_app. right. now left.
  - intros [c [Hin Hc]]. apply in_split in Hin as [l1 [l2 ->]].
    apply LCat; [apply Lang_star_any |].
    change (c :: l2) with ([c] ++ l2).
    apply LCat; [now constructor | apply Lang_star_any].
Qed.

Lemma test_search_class_false p s :
  test_search (Class p) s = false <-> forall c, In c s -> p c = false.
Proof.
  rewrite test_search_class. split.
  - intros H c Hin. destruct (p c) eqn:E; [| reflexivity].
    assert (existsb p s = true) by (apply existsb_exists; eauto). congruence.
  - intros H. destruct (existsb p s) eqn:E; [| reflexivity].
    apply existsb_exists in E as [c [Hin Hc]]. rewrite (H c Hin) in Hc. discriminate.
Qed.

(** *** The unary pattern *)

Lemma unary_pattern s :
  test_anchored UNARY_SELECTOR_PATTERN s = true <-> Shapes.unary s.
Proof.
  unfold test_anchored, UNARY_SELECTOR_PATTERN. rewrite matches_Lang, Lang_led.
  reflexivity.
Qed.

(** *** The binary pattern *)

Lemma binary_char_symbols c : binary_char c = true <-> In c Shapes.binary_symbols.
Proof.
  unfold binary_char, chr. rewrite !orb_true_iff, !N.eqb_eq.
  unfold Shapes.binary_symbols, js. simpl. intuition congruence.
Qed.

Lemma binary_pattern s :
  test_anchored BINARY_SELECTOR_PATTERN s = true <-> Shapes.binary s.
Proof.
  unfold test_anchored, BINARY_SELECTOR_PATTERN, Plus, Shapes.binary.
  rewrite matches_Lang, Lang_led. split.
  - intros [c [rest [-> [Hc Hrest]]]]. split; [discriminate |].
    constructor; [now apply binary_char_symbols |].
    apply Forall_forall. intros x Hx. apply binary_char_symbols.
    rewrite forallb_forall in Hrest. now apply Hrest.
  - intros [Hne HF]. destruct s as [|c rest]; [congruence |].
    exists c, rest. inversion HF as [|? ? Hc Hrest]; subst.
    split; [reflexivity |]. split; [now apply binary_char_symbols |].
    apply forallb_forall. intros x Hx. apply binary_char_symbols.
    rewrite Forall_forall in Hrest. now apply Hrest.
Qed.

(** *** The keyword pattern *)

Lemma keyword_segment s :
  Lang (Cat (Class lower) (Cat (Star (Class alnum_lower_first)) (Class (chr ":")))) s
  <-> exists segment, Shapes.lowercase_led segment /\ s = segment ++ js ":".
Proof.
  split.
  - intros H. apply Lang_Cat_inv in H as [s1 [s2 [-> [H1 H]]]].
    apply Lang_Cat_inv in H as [s3 [s4 [-> [H3 H4]]]].
    apply Lang_Class_inv in H1 as [c [-> Hc]].
    apply Lang_Class_inv in H4 as [d [-> Hd]].
    apply Lang_star_class in H3. apply N.eqb_eq in Hd. subst d.
    exists (c :: s3). split; [now exists c, s3 | reflexivity].
  - intros [segment [[c [rest [-> [Hc Hrest]]]] ->]].
    change ((c :: rest) ++ js ":") with ([c] ++ rest ++ [cu ":"]).
    apply LCat; [now constructor |].
    apply LCat; [now apply Lang_star_class |].
    constructor. apply N.eqb_refl.
Qed.

Lemma Forall_image {A B} (Q : A -> Prop) (f : A -> B) l :
  Forall (fun y => exists x, Q x /\ y = f x) l <->
  exists l', Forall Q l' /\ l = map f l'.
Proof.
  split.
  - intros H. induction H as [|y l [x [Hx ->]] _ [l' [HF ->]]].
    + exists []. split; [constructor | reflexivity].
    + exists (x :: l'). split; [now constructor | reflexivity].
  - intros [l' [HF ->]]. induction HF as [|x l' Hx _ IH]; simpl; constructor; eauto.
Qed.

Lemma keyword_pattern s :
  test_anchored KEYWORD_SELECTOR_PATTERN s = true <-> Shapes.keyword s.
Proof.
  unfold test_anchored, KEYWORD_SELECTOR_PATTERN, Plus, Shapes.keyword.
  rewrite matches_Lang. split.
  - intros H. apply Lang_Cat_inv in H as [s1 [s2 [-> [H1 H2]]]].
    apply Lang_star_segments in H2 as [segments [HF ->]].
    assert (HF' : Forall (fun y => exists x, Shapes.lowercase_led x /\ y = x ++ js ":")
                         (s1 :: segments)).
    { constructor; [now apply keyword_segment |].
      eapply Forall_impl; [| exact HF]. intros y Hy. now apply keyword_segment. }
    apply Forall_image in HF' as [ids [Hids E]].
    exists ids. split; [| split; [exact Hids |]].
    + intros ->. discriminate.
    + change (s1 ++ List.concat segments) with (List.concat (s1 :: segments)).
      now rewrite E.
  - intros [ids [Hne [Hids ->]]]. destruct ids as [|id ids]; [congruence |].
    inversion Hids as [|? ? Hid Hrest]; subst. simpl.
    apply LCat.
    + apply keyword_segment. now exists id.
    + apply Lang_star_segments. exists (map (fun segment => segment ++ js ":") ids).
      split; [| reflexivity].
      apply Forall_forall. intros y Hy. apply in_map_iff in Hy as [x [<- Hx]].
      apply keyword_segment. exists x. split; [| reflexivity].
      rewrite Forall_forall in Hrest. now apply Hrest.
Qed.

(** *** The identifier pattern *)

Lemma letter_led_segment s :
  Lang (Cat (Class letter) (Star (Class alnum))) s <-> Shapes.letter_led s.
Proof.
  rewrite Lang_led. unfold Shapes.letter_led.
  assert (E1 : forall c, letter c = (Shapes.lowercase c || Shapes.uppercase c)).
  { intros c. unfold letter, Shapes.lowercase, Shapes.uppercase. apply orb_comm. }
  assert (E2 : forall c, alnum c = Shapes.alphanumeric c).
  { intros c. unfold alnum, Shapes.alphanumeric, Shapes.lowercase, Shapes.uppercase,
      Shapes.digit. now rewrite (orb_comm (range "A" "Z" c)). }
  split; intros [c [rest [-> [Hc Hrest]]]]; exists c, rest;
    (split; [reflexivity |]).
  - rewrite <- E1, <- (@forallb_pointwise _ _ rest E2). now split.
  - rewrite E1, (@forallb_pointwise _ _ rest E2). now split.
Qed.

Lemma join_cons sep x l :
  Channel.join sep (x :: l) = x ++ List.concat (map (fun y => sep ++ y) l).
Proof.
  revert x. induction l as [|y l IH]; intros x.
  - simpl. now rewrite app_nil_r.
  - change (Channel.join sep (x :: y :: l)) with (x ++ sep ++ Channel.join sep (y :: l)).
    rewrite IH. simpl. now rewrite <- app_assoc.
Qed.

Lemma identifier_pattern s :
  test_anchored IDENTIFIER_PATTERN s = true <-> Shapes.dotted_identifier s.
Proof.
  unfold test_anchored, IDENTIFIER_PATTERN, Shapes.dotted_identifier.
  rewrite matches_Lang.
  assert (Hseg : forall y,
    Lang (Cat (Class (chr ".")) (Cat (Class letter) (Star (Class alnum)))) y <->
    exists x, Shapes.letter_led x /\ y = js "." ++ x).
  { intros y. split.
    - intros H. apply Lang_Cat_inv in H as [s1 [s2 [-> [H1 H2]]]].
      apply Lang_Class_inv in H1 as [d [-> Hd]]. apply N.eqb_eq in Hd. subst d.
      exists s2. split; [now apply letter_led_segment | reflexivity].
    - intros [x [Hx ->]]. apply LCat; [| now apply letter_led_segment].
      constructor. apply N.eqb_refl. }
  split.
  - intros H.
    assert (H' : Lang (Cat (Cat (Class letter) (Star (Class alnum)))
                   (Star (Cat (Class (chr "."))
                      (Cat (Class letter) (Star (Class alnum)))))) s).
    { apply Lang_Cat_inv in H as [s1 [s2 [-> [H1 H2]]]].
      apply Lang_Cat_inv in H2 as [s3 [s4 [-> [H3 H4]]]].
      rewrite app_assoc. apply LCat; [now apply LCat | assumption]. }
    apply Lang_Cat_inv in H' as [first [tail [-> [Hfirst Htail]]]].
    apply Lang_star_segments in Htail as [segments [HF ->]].
    assert (HF' : Forall (fun y => exists x, Shapes.letter_led x /\ y = js "." ++ x) segments).
    { eapply Forall_impl; [| exact HF]. intros y Hy. now apply Hseg. }
    apply Forall_image in HF' as [rest [Hrest ->]].
    exists (first :: rest). split; [discriminate |]. split.
    + constructor; [now apply letter_led_segment | exact Hrest].
    + now rewrite join_cons.
  - intros [segments [Hne [HF ->]]]. destruct segments as [|first rest]; [congruence |].
    inversion HF as [|? ? Hfirst Hrest]; subst. rewrite join_cons.
    apply letter_led_segment in Hfirst.
    apply Lang_Cat_inv in Hfirst as [s1 [s2 [-> [H1 H2]]]].
    rewrite <- app_assoc. apply LCat; [exact H1 |]. apply LCat; [exact H2 |].
    apply Lang_star_segments. exists (map (fun y => js "." ++ y) rest).
    split; [| reflexivity].
    apply Forall_forall. intros y Hy. apply in_map_iff in Hy as [x [<- Hx]].
    apply Hseg. exists x. split; [| reflexivity].
    rewrite Forall_forall in Hrest. now apply Hrest.
Qed.

End PatternFacts.

(** ** The validators *)

Module ValidationFacts.
Import RegexFacts PatternFacts Validation.

Lemma jslength_zero s : (jslength s =? 0)%Z = true <-> s = [].
Proof.
  unfold jslength. rewrite Z.eqb_eq. destruct s; simpl; split; intros H;
    try reflexivity; try discriminate; lia.
Qed.

Lemma has_null_byte_In s : has_null_byte s = true <-> In 0%N s.
Proof.
  unfold has_null_byte. rewrite includes_spec. split.
  - intros [pre [post ->]]. apply in_or_app. right. now left.
  - intros H. apply in_split in H as [pre [post ->]]. now exists pre, post.
Qed.

(** When each validator accepts a string, in terms of the tests it makes. *)

Lemma validateClassName_valid s :
  valid (validateClassName (VString s)) = true <->
  (jslength s =? 0)%Z = false /\ (jslength s >? MAX_INPUT_LENGTH)%Z = false
  /\ test_search DANGEROUS_CHARS s = false
  /\ test_anchored IDENTIFIER_PATTERN s = true.
Proof.
  unfold validateClassName.
  destruct (jslength s =? 0)%Z, (jslength s >? MAX_INPUT_LENGTH)%Z,
    (test_search DANGEROUS_CHARS s), (test_anchored IDENTIFIER_PATTERN s);
    simpl; intuition congruence.
Qed.

Lemma validateSelector_valid s :
  valid (validateSelector (VString s)) = true <->
  (jslength s =? 0)%Z = false /\ (jslength s >? MAX_INPUT_LENGTH)%Z = false
  /\ test_search DANGEROUS_CHARS s = false
  /\ (test_anchored UNARY_SELECTOR_PATTERN s
      || test_anchored BINARY_SELECTOR_PATTERN s
      || test_anchored KEYWORD_SELECTOR_PATTERN s) = true.
Proof.
  unfold validateSelector.
  destruct (jslength s =? 0)%Z, (jslength s >? MAX_INPUT_LENGTH)%Z,
    (test_search DANGEROUS_CHARS s), (test_anchored UNARY_SELECTOR_PATTERN s),
    (test_anchored BINARY_SELECTOR_PATTERN s),
    (test_anchored KEYWORD_SELECTOR_PATTERN s);
    simpl; intuition congruence.
Qed.

Lemma validatePattern_valid s :
  valid (validatePattern (VString s)) = true <->
  (jslength s >? MAX_INPUT_LENGTH)%Z = false
  /\ (s = [] \/ s = js "*" \/ test_search DANGEROUS_CHARS s = false).
Proof.
  unfold validatePattern.
  destruct (jslength s >? MAX_INPUT_LENGTH)%Z.
  - simpl. intuition congruence.
  - destruct (jslength s =? 0)%Z eqn:E0.
    + apply jslength_zero in E0. simpl. intuition congruence.
    + destruct (jsstring_eqb s (js "*")) eqn:E1.
      * apply jsstring_eqb_eq in E1. simpl. intuition congruence.
      * apply jsstring_eqb_neq in E1.
        assert (s <> []) by (intros ->; discriminate).
        destruct (test_search DANGEROUS_CHARS s); simpl; intuition congruence.
Qed.

Lemma validateExpression_valid s :
  valid (validateExpression (VString s)) = true <->
  (jslength s =? 0)%Z = false /\ (jslength s >? MAX_INPUT_LENGTH)%Z = false
  /\ test_search (Class expression_control_char) s = false.
Proof.
  unfold validateExpression.
  destruct (jslength s =? 0)%Z, (jslength s >? MAX_INPUT_LENGTH)%Z,
    (test_search (Class expression_control_char) s);
    simpl; intuition congruence.
Qed.

Lemma validateSource_valid s :
  valid (validateSource (VString s)) = true <->
  (jslength s =? 0)%Z = false /\ (jslength s >? MAX_SOURCE_LENGTH)%Z = false
  /\ has_null_byte s = false.
Proof.
  unfold validateSource.
  destruct (jslength s =? 0)%Z, (jslength s >? MAX_SOURCE_LENGTH)%Z, (has_null_byte s);
    simpl; intuition congruence.
Qed.

(** A string without a dangerous character has no line feed. *)
Lemma dangerous_newline s :
  test_search DANGEROUS_CHARS s = false -> ~ In 0x0a%N s.
Proof.
  intros H Hin. unfold DANGEROUS_CHARS in H.
  rewrite test_search_class_false in H. specialize (H _ Hin). discriminate.
Qed.

(** C8.  For a string within the length ceiling and without dangerous
    characters, [validateSelector] accepts exactly the unary, binary and
    keyword shapes of the specification, and [validateClassName] exactly
    the dot-segmented letter-led alphanumeric identifiers.  In particular
    "Core.Object" and "at:put:" are accepted, and "123Class", a class name
    with a backtick-quoted payload and "Selector" are rejected. *)
Theorem selector_and_class_name_shapes :
  (forall s : jsstring,
      (jslength s <= MAX_INPUT_LENGTH)%Z ->
      test_search DANGEROUS_CHARS s = false ->
      (valid (validateSelector (VString s)) = true
       <-> Shapes.unary s \/ Shapes.binary s \/ Shapes.keyword s)
      /\ (valid (validateClassName (VString s)) = true
          <-> Shapes.dotted_identifier s))
  /\ valid (validateClassName (VString (js "Core.Object"))) = true
  /\ valid (validateSelector (VString (js "at:put:"))) = true
  /\ valid (validateClassName (VString (js "123Class"))) = false
  /\ valid (validateClassName (VString (js "Class`whoami`"))) = false
  /\ valid (validateSelector (VString (js "Selector"))) = false.
Proof.
  split; [| repeat split; vm_compute; reflexivity].
  intros s Hlen Hsafe.
  assert (Hmax : (jslength s >? MAX_INPUT_LENGTH)%Z = false).
  { rewrite Z.gtb_ltb. apply Z.ltb_ge. exact Hlen. }
  rewrite validateSelector_valid, validateClassName_valid.
  rewrite <- unary_pattern, <- binary_pattern, <- keyword_pattern, <- identifier_pattern.
  rewrite !orb_true_iff.
  destruct (jslength s =? 0)%Z eqn:E0.
  - apply jslength_zero in E0. subst s. split; split; intros H.
    + destruct H as [H _]. discriminate.
    + exfalso. destruct H as [H|[H|H]]; vm_compute in H; discriminate.
    + destruct H as [H _]. discriminate.
    + exfalso. vm_compute in H. discriminate.
  - tauto.
Qed.

Lemma selector_and_class_name_shapes_witness :
  (jslength (js "at:put:") <= MAX_INPUT_LENGTH)%Z
  /\ test_search DANGEROUS_CHARS (js "at:put:") = false
  /\ (valid (validateSelector (VString (js "at:put:"))) = true
      <-> Shapes.unary (js "at:put:") \/ Shapes.binary (js "at:put:")
          \/ Shapes.keyword (js "at:put:")).
Proof.
  assert (H1 : (jslength (js "at:put:") <= MAX_INPUT_LENGTH)%Z) by (vm_compute; discriminate).
  assert (H2 : test_search DANGEROUS_CHARS (js "at:put:") = false) by reflexivity.
  split; [exact H1 |]. split; [exact H2 |].
  exact (proj1 (proj1 selector_and_class_name_shapes (js "at:put:") H1 H2)).
Defined.

(** C9 as stated fails at the empty string: it is within the ceiling and
    has no null byte, yet [validateSource] rejects it. *)
Lemma validateSource_empty :
  (jslength [] <= MAX_SOURCE_LENGTH)%Z /\ ~ In 0%N []
  /\ validateSource (VString []) = reject (js "Source cannot be empty").
Proof.
  split; [vm_compute; discriminate |]. split; [intros [] | reflexivity].
Qed.

(** C9, amended.  [validateSource] accepts a string exactly when it is not
    empty, has at most 100,000 code units and contains no null byte. *)
Theorem validateSource_accepts :
  forall s : jsstring,
    valid (validateSource (VString s)) = true
    <-> s <> [] /\ (jslength s <= 100000)%Z /\ ~ In 0%N s.
Proof.
  intros s. rewrite validateSource_valid. unfold MAX_SOURCE_LENGTH.
  rewrite Z.gtb_ltb, Z.ltb_ge. rewrite <- has_null_byte_In.
  destruct (jslength s =? 0)%Z eqn:E0.
  - apply jslength_zero in E0. intuition congruence.
  - assert (s <> []) by (intros ->; discriminate).
    destruct (has_null_byte s); intuition congruence.
Qed.

(** A number is accepted as a port exactly when it is an integer from 1
    to 65535. *)
Lemma validatePort_number x :
  valid (validatePort (VNumber x)) = true
  <-> exists n, integer_value x n /\ (1 <= n <= 65535)%Z.
Proof.
  unfold validatePort, integer_value.
  destruct x as [|negative|m e]; cbn [isNaN Number_isInteger number_lt number_gt negb].
  - split; [discriminate | intros [n [[] _]]].
  - split; [discriminate | intros [n [[] _]]].
  - destruct (Z.leb_spec 0 e) as [He|He]; cbn [negb].
    + destruct (Z.ltb_spec (m * 2 ^ e) 1) as [H1|H1]; cbn [orb].
      * split; [discriminate | intros [n [E Hn]]; lia].
      * rewrite Z.gtb_ltb.
        destruct (Z.ltb_spec 65535 (m * 2 ^ e)) as [H2|H2].
        -- split; [discriminate | intros [n [E Hn]]; lia].
        -- split; [intros _; exists (m * 2 ^ e)%Z; lia | reflexivity].
    + assert (Hd : (0 < 2 ^ (- e))%Z) by (apply Z.pow_pos_nonneg; lia).
      set (d := (2 ^ (- e))%Z) in *.
      destruct (Z.eqb_spec (m mod d) 0) as [Hm|Hm]; cbn [negb].
      * apply Z.mod_divide in Hm; [| lia]. destruct Hm as [q ->].
        destruct (Z.ltb_spec (q * d) (1 * d)) as [H1|H1]; cbn [orb].
        -- split; [discriminate |]. intros [n [E Hn]]. nia.
        -- rewrite Z.gtb_ltb.
           destruct (Z.ltb_spec (65535 * d) (q * d)) as [H2|H2].
           ++ split; [discriminate |]. intros [n [E Hn]]. nia.
           ++ split; [intros _; exists q; split; [reflexivity | nia] | reflexivity].
      * split; [discriminate |]. intros [n [E Hn]]. exfalso. apply Hm.
        rewrite E. apply Z.mod_mul. lia.
Qed.

(** C7.  A number is accepted exactly when it is an integer from 1 to
    65535: the number 80.5 is rejected as not an integer, 0 and 65536 as
    out of range, each with its own message, and a value that is no
    number with a third.  A string is judged by what [parseInt] reads at
    its start: "9999" is accepted, and so is "80.5", which denotes a
    fraction, since [parseInt] stops at the dot and yields 80. *)
Theorem validatePort_fractional_string :
  validatePort (VString (js "80.5")) = accept
  /\ validatePort (VNumber (Finite 161 (-1))) = reject (js "Port must be an integer")
  /\ validatePort (VNumber (Finite 0 0)) = reject (js "Port must be between 1 and 65535")
  /\ validatePort (VNumber (Finite 65536 0)) = reject (js "Port must be between 1 and 65535")
  /\ validatePort (VString (js "abc")) = reject (js "Port must be a number")
  /\ validatePort (VString (js "9999")) = accept
  /\ (forall x, valid (validatePort (VNumber x)) = true
                <-> exists n, integer_value x n /\ (1 <= n <= 65535)%Z)
  /\ (forall s, validatePort (VString s) = validatePort (VNumber (parseInt10 s))).
Proof.
  repeat split; try (vm_compute; reflexivity); apply validatePort_number.
Qed.

End ValidationFacts.

(** ** The command channel *)

Module ChannelFacts.
Import Channel Traces.

Lemma split_newline_first s :
  exists rest, split_newline s = first_line s :: rest.
Proof.
  induction s as [|c s [rest IH]]; simpl.
  - now exists [].
  - unfold newline. destruct (c =? 10)%N.
    + now exists (split_newline s).
    + rewrite IH. now exists rest.
Qed.

Lemma first_line_discards line rest :
  ~ In newline line -> first_line (line ++ newline :: rest) = line.
Proof.
  induction line as [|c line IH]; intros H.
  - reflexivity.
  - simpl. destruct (c =? newline)%N eqn:E.
    + apply N.eqb_eq in E. exfalso. apply H. now left.
    + f_equal. apply IH. intros Hin. apply H. now right.
Qed.

Lemma first_terminal events :
  existsb terminal events = true ->
  exists pre ev post,
    events = pre ++ ev :: post /\ existsb terminal pre = false /\ terminal ev = true.
Proof.
  induction events as [|e events IH]; simpl; [discriminate |].
  destruct (terminal e) eqn:E; simpl.
  - intros _. now exists [], e, events.
  - intros H. destruct (IH H) as [pre [ev [post [-> [Hpre Hev]]]]].
    exists (e :: pre), ev, post. simpl. rewrite E. auto.
Qed.

Lemma resolve_uncaught v st : uncaught (resolve v st) = uncaught st.
Proof. unfold resolve. now destruct (promise st). Qed.

Lemma resolve_calls v st : calls (resolve v st) = calls st.
Proof. unfold resolve. now destruct (promise st). Qed.

Lemma resolve_response v st : response (resolve v st) = response st.
Proof. unfold resolve. now destruct (promise st). Qed.

Lemma resolve_pending v st :
  promise st = Pending -> promise (resolve v st) = Fulfilled v.
Proof. unfold resolve. now intros ->. Qed.

Lemma resolve_fulfilled v w st :
  promise st = Fulfilled w -> promise (resolve v st) = Fulfilled w.
Proof. unfold resolve. intros H. now rewrite H. Qed.

Lemma resolve_rejected v reason st :
  promise st = Rejected reason -> promise (resolve v st) = Rejected reason.
Proof. unfold resolve. intros H. now rewrite H. Qed.

Lemma resolve_not_rejected v st :
  (forall reason, promise st <> Rejected reason) ->
  forall reason, promise (resolve v st) <> Rejected reason.
Proof. unfold resolve. intros H. destruct (promise st) eqn:E; simpl; congruence. Qed.

Section Handlers.

Variable server : Server.
Variable command : jsstring.

(** The value the [end] handler resolves to on the buffer [buffer]. *)
Let end_value (buffer : jsstring) : JSON :=
  match on_end_try server buffer with
  | Return value => value
  | Throw message => error_envelope (js "Invalid JSON response: " ++ message)
  end.

Let timeout_value : JSON :=
  error_envelope (js "Connection timed out to " ++ show (host server)
                  ++ js ":" ++ show_port (port server)).

(** No handler lets an exception escape. *)
Lemma handler_returns ev st : exists st', handler server command ev st = Return st'.
Proof.
  destruct ev as [|data| | |code message]; simpl.
  - eexists; reflexivity.
  - eexists; reflexivity.
  - unfold on_end. destruct (on_end_try server (response st)); eexists; reflexivity.
  - eexists; reflexivity.
  - unfold on_error.
    destruct (match code with Some c => jsstring_eqb c (js "ECONNREFUSED") | None => false end);
      eexists; reflexivity.
Qed.

Lemma emit_handler ev st st' :
  uncaught st = None -> handler server command ev st = Return st' ->
  emit server command st ev = st'.
Proof. intros Hu Hh. unfold emit. now rewrite Hu, Hh. Qed.

Lemma emit_connect st :
  uncaught st = None ->
  emit server command st OnConnect =
  socket_call SocketEnd
    (socket_call (SocketWrite (prefix server ++ command ++ [newline])) st).
Proof. intros Hu. now apply emit_handler. Qed.

Lemma emit_data data st :
  uncaught st = None ->
  emit server command st (OnData data) =
  {| response := response st ++ Decoding.Buffer_toString data; promise := promise st;
     calls := calls st; uncaught := uncaught st |}.
Proof. intros Hu. now apply emit_handler. Qed.

Lemma emit_end st :
  uncaught st = None ->
  emit server command st OnEnd = resolve (end_value (response st)) st.
Proof.
  intros Hu. apply emit_handler; [exact Hu |]. simpl. unfold on_end, end_value.
  now destruct (on_end_try server (response st)).
Qed.

Lemma emit_timeout st :
  uncaught st = None ->
  emit server command st OnTimeout =
  resolve timeout_value (socket_call SocketDestroy st).
Proof. intros Hu. now apply emit_handler. Qed.

Lemma emit_error code message st :
  uncaught st = None ->
  exists text,
    emit server command st (OnError code message) = resolve (error_envelope text) st.
Proof.
  intros Hu. unfold emit. rewrite Hu. simpl. unfold on_error.
  destruct (match code with Some c => jsstring_eqb c (js "ECONNREFUSED") | None => false end);
    eexists; reflexivity.
Qed.

(** What an event leaves unchanged. *)
Lemma emit_uncaught ev st :
  uncaught st = None -> uncaught (emit server command st ev) = None.
Proof.
  intros Hu. destruct ev as [|data| | |code message].
  - now rewrite emit_connect.
  - now rewrite emit_data.
  - now rewrite emit_end, resolve_uncaught.
  - now rewrite emit_timeout, resolve_uncaught.
  - destruct (@emit_error code message st Hu) as [text ->]. now rewrite resolve_uncaught.
Qed.

Lemma emit_not_rejected ev st :
  uncaught st = None ->
  (forall reason, promise st <> Rejected reason) ->
  forall reason, promise (emit server command st ev) <> Rejected reason.
Proof.
  intros Hu Hp. destruct ev as [|data| | |code message].
  - now rewrite emit_connect.
  - now rewrite emit_data.
  - rewrite emit_end by exact Hu. now apply resolve_not_rejected.
  - rewrite emit_timeout by exact Hu. now apply resolve_not_rejected.
  - destruct (@emit_error code message st Hu) as [text ->]. now apply resolve_not_rejected.
Qed.

Lemma emit_fulfilled ev st v :
  uncaught st = None -> promise st = Fulfilled v ->
  promise (emit server command st ev) = Fulfilled v.
Proof.
  intros Hu Hp. destruct ev as [|data| | |code message].
  - now rewrite emit_connect.
  - now rewrite emit_data.
  - rewrite emit_end by exact Hu. now apply resolve_fulfilled.
  - rewrite emit_timeout by exact Hu. now apply resolve_fulfilled.
  - destruct (@emit_error code message st Hu) as [text ->]. now apply resolve_fulfilled.
Qed.

Lemma run_uncaught events : forall st,
  uncaught st = None -> uncaught (fold_left (emit server command) events st) = None.
Proof.
  induction events as [|ev events IH]; intros st Hu; simpl; [exact Hu |].
  apply IH. now apply emit_uncaught.
Qed.

Lemma run_not_rejected events : forall st,
  uncaught st = None ->
  (forall reason, promise st <> Rejected reason) ->
  forall reason, promise (fold_left (emit server command) events st) <> Rejected reason.
Proof.
  induction events as [|ev events IH]; intros st Hu Hp; simpl; [exact Hp |].
  apply IH; [now apply emit_uncaught | now apply emit_not_rejected].
Qed.

Lemma emit_rejected ev st reason :
  uncaught st = None -> promise st = Rejected reason ->
  promise (emit server command st ev) = Rejected reason.
Proof.
  intros Hu Hp. destruct ev as [|data| | |code message].
  - now rewrite emit_connect.
  - now rewrite emit_data.
  - rewrite emit_end by exact Hu. now apply resolve_rejected.
  - rewrite emit_timeout by exact Hu. now apply resolve_rejected.
  - destruct (@emit_error code message st Hu) as [text ->]. now apply resolve_rejected.
Qed.

(** Once rejected, the promise stays rejected. *)
Lemma run_rejected events : forall st reason,
  uncaught st = None -> promise st = Rejected reason ->
  promise (fold_left (emit server command) events st) = Rejected reason.
Proof.
  induction events as [|ev events IH]; intros st reason Hu Hp; simpl; [exact Hp |].
  apply IH; [now apply emit_uncaught | now apply emit_rejected].
Qed.

(** Once fulfilled, the promise keeps its value. *)
Lemma run_fulfilled events : forall st v,
  uncaught st = None -> promise st = Fulfilled v ->
  promise (fold_left (emit server command) events st) = Fulfilled v.
Proof.
  induction events as [|ev events IH]; intros st v Hu Hp; simpl; [exact Hp |].
  apply IH; [now apply emit_uncaught | now apply emit_fulfilled].
Qed.

(** Before the first terminal event the promise is untouched and the
    buffer collects the data. *)
Lemma run_before_terminal events : forall st,
  uncaught st = None -> existsb terminal events = false ->
  let st' := fold_left (emit server command) events st in
  promise st' = promise st /\ response st' = response st ++ received events
  /\ uncaught st' = None.
Proof.
  induction events as [|ev events IH]; intros st Hu Ht; simpl.
  - now rewrite app_nil_r.
  - simpl in Ht. apply orb_false_iff in Ht as [Hev Ht].
    destruct ev as [|data| | |code message]; try discriminate.
    + rewrite emit_connect by exact Hu.
      destruct (IH (socket_call SocketEnd
                      (socket_call (SocketWrite (prefix server ++ command ++ [newline])) st))
                   Hu Ht) as [H1 [H2 H3]].
      auto.
    + rewrite emit_data by exact Hu.
      destruct (IH {| response := response st ++ Decoding.Buffer_toString data;
                      promise := promise st;
                      calls := calls st; uncaught := uncaught st |} Hu Ht)
        as [H1 [H2 H3]].
      simpl in *. rewrite H2, <- app_assoc. auto.
Qed.

(** The data written: one line for each [connect] event. *)
Lemma written_socket_call c st :
  Tools.written (socket_call c st) =
  Tools.written st ++ match c with SocketWrite data => [data] | _ => [] end.
Proof.
  unfold Tools.written, socket_call. simpl. rewrite flat_map_app. simpl.
  now rewrite app_nil_r.
Qed.

Lemma written_resolve v st : Tools.written (resolve v st) = Tools.written st.
Proof. unfold Tools.written. now rewrite resolve_calls. Qed.

Lemma run_written events : forall st,
  uncaught st = None ->
  Tools.written (fold_left (emit server command) events st) =
  Tools.written st
  ++ map (fun _ => prefix server ++ command ++ [newline]) (filter is_connect events).
Proof.
  induction events as [|ev events IH]; intros st Hu; simpl.
  - now rewrite app_nil_r.
  - rewrite IH by now apply emit_uncaught.
    destruct ev as [|data| | |code message]; simpl.
    + rewrite emit_connect by exact Hu. rewrite !written_socket_call.
      now rewrite app_nil_r, <- app_assoc.
    + now rewrite emit_data.
    + rewrite emit_end by exact Hu. now rewrite written_resolve.
    + rewrite emit_timeout by exact Hu.
      now rewrite written_resolve, written_socket_call, app_nil_r.
    + destruct (@emit_error code message st Hu) as [text ->]. now rewrite written_resolve.
Qed.

(** The calls made on the socket while a trace is handled. *)
Lemma run_calls events : forall st,
  uncaught st = None ->
  calls (fold_left (emit server command) events st) =
  calls st ++ flat_map (Notions.calls_on server command) events.
Proof.
  induction events as [|ev events IH]; intros st Hu; simpl.
  - now rewrite app_nil_r.
  - rewrite IH by now apply emit_uncaught.
    destruct ev as [|data| | |code message]; simpl.
    + rewrite emit_connect by exact Hu. simpl. now rewrite <- !app_assoc.
    + now rewrite emit_data.
    + rewrite emit_end by exact Hu. now rewrite resolve_calls.
    + rewrite emit_timeout by exact Hu. rewrite resolve_calls. simpl.
      now rewrite <- app_assoc.
    + destruct (@emit_error code message st Hu) as [text ->].
      now rewrite resolve_calls.
Qed.

End Handlers.

(** *** The state the executor leaves *)

Lemma started_pending server :
  port server <> None -> promise (started server) = Pending.
Proof. unfold started. simpl. destruct (port server); congruence. Qed.

Lemma started_rejected server :
  port server = None -> promise (started server) = Rejected ERR_MISSING_ARGS.
Proof. unfold started. simpl. now intros ->. Qed.

(** *** Trimming *)

Lemma forallb_rev (A : Type) (f : A -> bool) (l : list A) :
  forallb f (rev l) = forallb f l.
Proof.
  induction l as [|a l IH]; [reflexivity |].
  cbn [rev forallb]. rewrite forallb_app, IH. cbn [forallb].
  now rewrite andb_true_r, andb_comm.
Qed.

Lemma trim_start_whitespace lead s :
  forallb is_js_whitespace lead = true -> trim_start (lead ++ s) = trim_start s.
Proof.
  induction lead as [|c lead IH]; cbn [app trim_start forallb]; [reflexivity |].
  intros H. apply andb_true_iff in H as [-> H]. now apply IH.
Qed.

Lemma trim_start_stops s :
  is_js_whitespace (hd Notions.space s) = false -> trim_start s = s.
Proof.
  destruct s as [|c s]; cbn [hd trim_start]; [reflexivity |]. now intros ->.
Qed.

Lemma trim_start_suffix x d y :
  is_js_whitespace d = false ->
  exists a x', x = a ++ x' /\ trim_start (x ++ d :: y) = x' ++ d :: y.
Proof.
  intros Hd. induction x as [|c x [a [x' [E H]]]].
  - exists [], []. cbn [app trim_start]. now rewrite Hd.
  - cbn [app trim_start]. destruct (is_js_whitespace c) eqn:Hc.
    + exists (c :: a), x'. split; [now rewrite E | exact H].
    + now exists [], (c :: x).
Qed.

Lemma first_line_nlfree line : ~ In newline line -> first_line line = line.
Proof.
  intros H. rewrite <- (app_nil_r line) at 1.
  induction line as [|c line IH]; [reflexivity |].
  simpl. destruct (c =? newline)%N eqn:E.
  - apply N.eqb_eq in E. exfalso. apply H. now left.
  - f_equal. apply IH. intros Hin. apply H. now right.
Qed.

(** [trim] removes the white space around a text that neither begins
    nor ends with white space, and leaves nothing of white space
    alone. *)
Lemma trim_spec lead core trail :
  forallb is_js_whitespace lead = true ->
  forallb is_js_whitespace trail = true ->
  core = []
  \/ (is_js_whitespace (hd Notions.space core) = false
      /\ is_js_whitespace (last core Notions.space) = false) ->
  trim (lead ++ core ++ trail) = core.
Proof.
  intros Hlead Htrail Hcore. unfold trim.
  rewrite trim_start_whitespace by exact Hlead.
  destruct Hcore as [-> | [Hfirst Hlast]].
  - cbn [app]. rewrite <- (app_nil_r trail), trim_start_whitespace by exact Htrail.
    reflexivity.
  - assert (Hne : core <> []) by (intros ->; discriminate Hfirst).
    rewrite (@trim_start_stops (core ++ trail))
      by (destruct core; [contradiction | exact Hfirst]).
    destruct (exists_last Hne) as [body [d E]].
    rewrite E, last_last in Hlast.
    rewrite E, rev_app_distr, rev_app_distr. cbn [rev app].
    rewrite trim_start_whitespace by (now rewrite forallb_rev).
    cbn [trim_start]. rewrite Hlast. cbn [rev]. now rewrite rev_involutive.
Qed.

(** The first line of a trimmed buffer, when the buffer is white space,
    then a line that neither begins nor ends with white space, then
    either white space only or a line feed and anything at all. *)
Lemma first_line_trimmed lead line tail :
  forallb is_js_whitespace lead = true ->
  is_js_whitespace (hd Notions.space line) = false ->
  is_js_whitespace (last line Notions.space) = false ->
  ~ In newline line ->
  forallb is_js_whitespace tail = true \/ (exists rest, tail = newline :: rest) ->
  first_line (trim (lead ++ line ++ tail)) = line.
Proof.
  intros Hlead Hfirst Hlast Hnl Htail.
  assert (Hne : line <> []) by (intros ->; discriminate Hfirst).
  destruct Htail as [Htail | [rest ->]].
  - rewrite (@trim_spec lead line tail Hlead Htail) by (right; now split).
    now apply first_line_nlfree.
  - unfold trim. rewrite trim_start_whitespace by exact Hlead.
    rewrite (@trim_start_stops (line ++ newline :: rest))
      by (destruct line; [contradiction | exact Hfirst]).
    destruct (exists_last Hne) as [body [d E]].
    rewrite E, last_last in Hlast.
    pose proof (@trim_start_suffix (rev (newline :: rest)) d (rev body) Hlast)
      as [a [x' [Ea H]]].
    replace (rev (line ++ newline :: rest))
      with (rev (newline :: rest) ++ d :: rev body)
      by (rewrite E, !rev_app_distr; cbn [rev app]; now rewrite <- !app_assoc).
    rewrite H, rev_app_distr. cbn [rev]. rewrite rev_involutive, <- E.
    apply (f_equal (@rev _)) in Ea. rewrite rev_involutive, rev_app_distr in Ea.
    destruct (rev x') as [|c r].
    + rewrite app_nil_r. now apply first_line_nlfree.
    + injection Ea as <- _. now apply first_line_discards.
Qed.

(** *** Decoding *)

Lemma decode_ascii bytes :
  forallb ascii_byte bytes = true -> Decoding.Buffer_toString bytes = bytes.
Proof.
  unfold Decoding.Buffer_toString.
  induction bytes as [|b bytes IH]; [reflexivity |].
  cbn [forallb]. intros H. apply andb_true_iff in H as [Hb H].
  cbn [Decoding.decode]. change (0 =? 0)%N with true. cbv iota.
  unfold Decoding.first_byte. unfold ascii_byte in Hb. rewrite Hb.
  cbn [app]. now rewrite IH.
Qed.

Lemma received_ascii events :
  forallb ascii_data events = true -> received events = received_bytes events.
Proof.
  induction events as [|ev events IH]; [reflexivity |].
  cbn [forallb]. intros H. apply andb_true_iff in H as [Hev H].
  destruct ev as [|data| | |code message]; cbn [received received_bytes]; auto.
  cbn [ascii_data] in Hev. now rewrite decode_ascii, IH.
Qed.

End ChannelFacts.

Module ChannelProperties.
Import Channel Traces ChannelFacts.

Lemma sendCommand_known config command imageName events server :
  getServer config imageName = Return server ->
  sendCommand config command imageName events =
  fold_left (emit server command) events (started server).
Proof.
  intros H. unfold sendCommand, executor, socket_connect, started. rewrite H.
  now destruct (port server).
Qed.

Lemma sendCommand_unknown config command imageName events message :
  getServer config imageName = Throw message ->
  sendCommand config command imageName events =
  {| response := []; promise := Fulfilled (error_envelope message);
     calls := []; uncaught := None |}.
Proof. intros H. unfold sendCommand, executor. now rewrite H. Qed.

(** The promise of a server without port: [socket.connect] has thrown. *)
Lemma sendCommand_rejected config command imageName events server :
  getServer config imageName = Return server -> port server = None ->
  promise (sendCommand config command imageName events) = Rejected ERR_MISSING_ARGS.
Proof.
  intros Hget Hport. rewrite (@sendCommand_known _ _ _ _ _ Hget).
  apply run_rejected; [reflexivity | now apply started_rejected].
Qed.

Lemma sendCommand_uncaught config command imageName events :
  uncaught (sendCommand config command imageName events) = None.
Proof.
  destruct (getServer config imageName) as [server|message] eqn:Hget.
  - rewrite (@sendCommand_known _ _ _ _ _ Hget). now apply run_uncaught.
  - now rewrite (@sendCommand_unknown _ _ _ _ _ Hget).
Qed.

Lemma sendCommand_calls config command imageName events server :
  getServer config imageName = Return server ->
  calls (sendCommand config command imageName events) =
  [NewSocket; SocketSetTimeout 30000; SocketConnect (port server) (host server)]
  ++ flat_map (Notions.calls_on server command) events.
Proof.
  intros Hget. rewrite (@sendCommand_known _ _ _ _ _ Hget). now rewrite run_calls.
Qed.

(** The promise before any terminal event, and the buffer. *)
Lemma sendCommand_before_terminal config command imageName server events :
  getServer config imageName = Return server ->
  existsb terminal events = false ->
  promise (sendCommand config command imageName events) = promise (started server)
  /\ response (sendCommand config command imageName events) = received events.
Proof.
  intros Hget Ht. rewrite (@sendCommand_known _ _ _ _ _ Hget).
  destruct (@run_before_terminal server command events (started server) eq_refl Ht)
    as [Hp [Hr _]].
  now split.
Qed.

(** The promise after the first terminal event of a trace. *)
Lemma sendCommand_terminal config command imageName server pre ev post :
  getServer config imageName = Return server ->
  port server <> None ->
  existsb terminal pre = false ->
  let st := sendCommand config command imageName (pre ++ ev :: post) in
  match ev with
  | OnEnd =>
      promise st =
      Fulfilled match on_end_try server (received pre) with
                | Return value => value
                | Throw message => error_envelope (js "Invalid JSON response: " ++ message)
                end
  | OnTimeout =>
      promise st =
      Fulfilled (error_envelope (js "Connection timed out to " ++ show (host server)
                                 ++ js ":" ++ show_port (port server)))
  | OnError _ _ => exists text, promise st = Fulfilled (error_envelope text)
  | OnConnect | OnData _ => True
  end.
Proof.
  intros Hget Hport Hpre st. subst st. rewrite (@sendCommand_known _ _ _ _ _ Hget).
  rewrite fold_left_app. simpl fold_left.
  destruct (@run_before_terminal server command pre (started server) eq_refl Hpre)
    as [Hp [Hr Hu]].
  set (st1 := fold_left (emit server command) pre (started server)) in *.
  rewrite (@started_pending server Hport) in Hp. simpl in Hr.
  destruct ev as [|data| | |code message]; try exact I.
  - apply run_fulfilled; [now apply emit_uncaught |].
    rewrite emit_end by exact Hu. rewrite Hr. now apply resolve_pending.
  - apply run_fulfilled; [now apply emit_uncaught |].
    rewrite emit_timeout by exact Hu. now apply resolve_pending.
  - destruct (@emit_error server command code message st1 Hu) as [text E].
    exists text. apply run_fulfilled; [now apply emit_uncaught |].
    rewrite E. now apply resolve_pending.
Qed.

Lemma on_end_try_parse server buffer :
  on_end_try server buffer =
  bind (JSON_parse (first_line (trim buffer))) (on_end_result server).
Proof.
  unfold on_end_try. destruct (split_newline_first (trim buffer)) as [rest ->].
  reflexivity.
Qed.

(** The value the promise takes when the connection ends. *)
Lemma sendCommand_end config command imageName server pre post :
  getServer config imageName = Return server ->
  port server <> None ->
  existsb terminal pre = false ->
  promise (sendCommand config command imageName (pre ++ OnEnd :: post)) =
  Fulfilled
    match bind (JSON_parse (first_line (trim (received pre))))
               (on_end_result server) with
    | Return value => value
    | Throw message => error_envelope (js "Invalid JSON response: " ++ message)
    end.
Proof.
  intros Hget Hport Hpre.
  pose proof (@sendCommand_terminal config command imageName server pre OnEnd post
                Hget Hport Hpre) as H.
  simpl in H. now rewrite on_end_try_parse in H.
Qed.

(** The two tests of the [end] handler on a parsed object. *)
Lemma is_string_spec v literal :
  is_string v literal = true <-> v = Some (JString literal).
Proof.
  destruct v as [[| | |s| |]|]; simpl; try (split; [discriminate | congruence]).
  rewrite jsstring_eqb_eq. split; congruence.
Qed.

Lemma on_end_result_object server members :
  on_end_result server (JObject members) =
  Return
    (if is_string (member members (js "status")) (js "error")
        && is_string (member members (js "code")) (js "AUTH_REQUIRED")
     then error_envelope (js "Authentication required for '" ++ show (name server)
                          ++ js "'. Add apiKey to your config.")
     else if is_string (member members (js "status")) (js "error")
             && is_string (member members (js "code")) (js "AUTH_FAILED")
     then error_envelope (js "Invalid API key for '" ++ show (name server)
                          ++ js "'. Check your configuration.")
     else JObject members).
Proof.
  unfold on_end_result, and_then, get, bind.
  destruct (is_string (member members (js "status")) (js "error"));
    destruct (is_string (member members (js "code")) (js "AUTH_REQUIRED"));
    destruct (is_string (member members (js "code")) (js "AUTH_FAILED"));
    reflexivity.
Qed.

Lemma on_end_result_other server result :
  result <> JNull -> (forall members, result <> JObject members) ->
  on_end_result server result = Return result.
Proof.
  intros Hnull Hobject.
  destruct result; try reflexivity; [congruence | exfalso; eapply Hobject; reflexivity].
Qed.

Lemma error_with_code_tests members code :
  error_with_code (JObject members) code <->
  is_string (member members (js "status")) (js "error")
  && is_string (member members (js "code")) code = true.
Proof.
  unfold error_with_code. rewrite andb_true_iff, !is_string_spec. split.
  - intros [members' [E [Hs Hc]]]. injection E as <-. now split.
  - intros [Hs Hc]. now exists members.
Qed.

(** What the [try] block of the [end] handler makes of a parsed value. *)
Lemma on_end_result_cases server result :
  (result = JNull /\ exists message, on_end_result server result = Throw message)
  \/ (exists message, on_end_result server result = Return (error_envelope message))
  \/ (result <> JNull /\ on_end_result server result = Return result).
Proof.
  destruct result as [| | | | |members].
  - left. split; [reflexivity | eexists; reflexivity].
  - right. right. split; [discriminate | reflexivity].
  - right. right. split; [discriminate | reflexivity].
  - right. right. split; [discriminate | reflexivity].
  - right. right. split; [discriminate | reflexivity].
  - rewrite on_end_result_object.
    destruct (is_string (member members (js "status")) (js "error")
              && is_string (member members (js "code")) (js "AUTH_REQUIRED"));
      [right; left; eexists; reflexivity |].
    destruct (is_string (member members (js "status")) (js "error")
              && is_string (member members (js "code")) (js "AUTH_FAILED"));
      [right; left; eexists; reflexivity |].
    right. right. split; [discriminate | reflexivity].
Qed.

(** C2.  [sendCommand] does not always resolve: when the server it
    resolves has no port, [socket.connect] throws inside the executor and
    the promise is rejected.  This is so for the name "constructor",
    which [validateServerName] accepts and under which no server is
    configured, and for every configured server without a port.  The
    promise is rejected in no other case and no handler lets an exception
    escape: for an unknown server it is fulfilled at once, and for a
    server with a port the first of the events [timeout], [error] and
    [end] fulfils it; the value is an object with the status "error" and
    a message after a timeout or a transport error and after an end whose
    first line does not parse or parses to [null], and is the first line
    as parsed otherwise, unless that is replaced by such an object. *)
Theorem sendCommand_rejects_when_connect_throws :
  (Validation.valid (Validation.validateServerName (VString (js "constructor"))) = true
   /\ ~ In (js "constructor") (Object_keys (servers dev_prod_config))
   /\ forall (command : jsstring) (events : list SocketEvent),
        promise (sendCommand dev_prod_config command (Some (js "constructor")) events)
        = Rejected ERR_MISSING_ARGS)
  /\ (forall (config : Config) (command : jsstring) (imageName : option jsstring)
             (events : list SocketEvent) (server : Server),
        getServer config imageName = Return server -> port server = None ->
        promise (sendCommand config command imageName events)
        = Rejected ERR_MISSING_ARGS)
  /\ (forall (config : Config) (command : jsstring) (imageName : option jsstring)
             (events : list SocketEvent),
        let st := sendCommand config command imageName events in
        uncaught st = None
        /\ (forall reason,
              promise st = Rejected reason ->
              exists server,
                getServer config imageName = Return server /\ port server = None)
        /\ (forall message,
              getServer config imageName = Throw message ->
              promise st =
              Fulfilled (JObject [(js "status", JString (js "error"));
                                  (js "message", JString message)]))
        /\ (forall server pre ev post,
              getServer config imageName = Return server -> port server <> None ->
              events = pre ++ ev :: post -> existsb terminal pre = false ->
              match ev with
              | OnTimeout | OnError _ _ =>
                  exists message,
                    promise st =
                    Fulfilled (JObject [(js "status", JString (js "error"));
                                        (js "message", JString message)])
              | OnEnd =>
                  (forall result,
                      JSON_parse (first_line (trim (received pre))) = Return result ->
                      result <> JNull ->
                      promise st = Fulfilled result
                      \/ exists message,
                           promise st =
                           Fulfilled (JObject [(js "status", JString (js "error"));
                                               (js "message", JString message)]))
                  /\ (JSON_parse (first_line (trim (received pre))) = Return JNull
                      \/ (exists reason,
                            JSON_parse (first_line (trim (received pre)))
                            = Throw reason) ->
                      exists text,
                        promise st =
                        Fulfilled
                          (JObject [(js "status", JString (js "error"));
                                    (js "message",
                                     JString (js "Invalid JSON response: " ++ text))]))
              | OnConnect | OnData _ => True
              end)).
Proof.
  assert (Hconstructor :
            getServer dev_prod_config (Some (js "constructor")) =
            Return {| name := Some (js "constructor"); host := None; port := None;
                      apiKey := KeyUndefined |}) by reflexivity.
  split; [| split].
  - split; [vm_compute; reflexivity |]. split.
    + simpl. intuition discriminate.
    + intros command events.
      now apply (@sendCommand_rejected _ _ _ _ _ Hconstructor).
  - intros config command imageName events server. apply sendCommand_rejected.
  - intros config command imageName events st. split; [| split; [| split]].
    + apply sendCommand_uncaught.
    + intros reason H. destruct (getServer config imageName) as [server|message] eqn:Hget.
      * exists server. split; [reflexivity |].
        destruct (port server) as [p|] eqn:Hport; [| reflexivity]. exfalso.
        subst st. rewrite (@sendCommand_known _ _ _ _ _ Hget) in H.
        refine (@run_not_rejected server command events (started server) eq_refl _ _ H).
        rewrite (@started_pending server) by congruence. discriminate.
      * subst st. rewrite (@sendCommand_unknown _ _ _ _ _ Hget) in H. discriminate.
    + intros message Hget. subst st.
      now rewrite (@sendCommand_unknown _ _ _ _ _ Hget).
    + intros server pre ev post Hget Hport E Hpre.
      pose proof (@sendCommand_terminal config command imageName server pre ev post
                    Hget Hport Hpre) as H.
      subst st. rewrite E. simpl in H.
      destruct ev as [|data| | |code text]; try exact I.
      * rewrite on_end_try_parse in H. split.
        -- intros result Hparse Hne. rewrite Hparse in H. simpl in H.
           destruct (on_end_result_cases server result)
             as [[-> _] | [[m Em] | [_ Em]]]; [congruence | |];
             rewrite Em in H; [right; now exists m | now left].
        -- intros [Hparse | [reason Hparse]]; rewrite Hparse in H; simpl in H;
             eexists; exact H.
      * eexists. exact H.
      * destruct H as [text' H]. exists text'. exact H.
Qed.

(** C3.  An unknown server name is not always reported: the name
    "constructor", which [validateServerName] accepts, is found in
    [config.servers] although no server is configured under it, so
    [sendCommand] creates a socket, arms its timeout and calls
    [connect] without port and host, and never resolves to an
    "Unknown server" error.  When [config.servers] has nothing under the
    requested name, not even an inherited member, [sendCommand] resolves,
    whatever the socket would do, to an object with the status "error"
    whose message names the unknown server and lists every configured
    name, and it makes no call on any socket.  With only [dev] and [prod]
    configured, the message for [staging] contains
    "Unknown server: staging" and "Available: dev, prod". *)
Theorem inherited_name_not_reported_unknown :
  (Validation.valid (Validation.validateServerName (VString (js "constructor"))) = true
   /\ ~ In (js "constructor") (Object_keys (servers dev_prod_config))
   /\ forall (command : jsstring) (events : list SocketEvent),
        let st := sendCommand dev_prod_config command (Some (js "constructor"))
                    events in
        (forall value, promise st <> Fulfilled value)
        /\ calls st =
           [NewSocket; SocketSetTimeout 30000; SocketConnect None None]
           ++ flat_map (Notions.calls_on
                          {| name := Some (js "constructor"); host := None;
                             port := None; apiKey := KeyUndefined |} command)
                       events)
  /\ (forall (config : Config) (command : jsstring) (imageName : option jsstring)
             (events : list SocketEvent),
        servers_get (servers config) (show (serverName config imageName)) = None ->
        let st := sendCommand config command imageName events in
        promise st =
        Fulfilled (JObject
                     [(js "status", JString (js "error"));
                      (js "message",
                       JString (js "Unknown server: "
                                ++ show (serverName config imageName)
                                ++ js ". Available: "
                                ++ join (js ", ") (Object_keys (servers config))))])
        /\ calls st = [])
  /\ (forall (command : jsstring) (events : list SocketEvent),
        let st := sendCommand dev_prod_config command (Some (js "staging")) events in
        exists message,
          promise st = Fulfilled (JObject [(js "status", JString (js "error"));
                                           (js "message", JString message)])
          /\ Includes (js "Unknown server: staging") message
          /\ Includes (js "Available: dev, prod") message
          /\ calls st = []).
Proof.
  assert (Hconstructor :
            getServer dev_prod_config (Some (js "constructor")) =
            Return {| name := Some (js "constructor"); host := None; port := None;
                      apiKey := KeyUndefined |}) by reflexivity.
  assert (General : forall config command imageName events,
    servers_get (servers config) (show (serverName config imageName)) = None ->
    sendCommand config command imageName events =
    {| response := [];
       promise := Fulfilled (error_envelope
                   (js "Unknown server: " ++ show (serverName config imageName)
                    ++ js ". Available: "
                    ++ join (js ", ") (Object_keys (servers config))));
       calls := []; uncaught := None |}).
  { intros config command imageName events H.
    apply sendCommand_unknown. unfold getServer. now rewrite H. }
  split; [| split].
  - split; [vm_compute; reflexivity |]. split; [simpl; intuition discriminate |].
    intros command events st. subst st. split.
    + intros value.
      rewrite (@sendCommand_rejected _ command _ events _ Hconstructor eq_refl).
      discriminate.
    + apply (@sendCommand_calls _ command _ events _ Hconstructor).
  - intros config command imageName events H st. subst st.
    rewrite (General _ command _ events H). now split.
  - intros command events st. subst st.
    rewrite (General dev_prod_config command (Some (js "staging")) events eq_refl).
    eexists. split; [reflexivity |].
    split; [| split; [| reflexivity]]; apply includes_spec; vm_compute; reflexivity.
Qed.

(** C4.  When the connection of a server ends, the promise is settled by
    the first line of the trimmed buffer alone.  Let the buffer be white
    space, then a line that neither begins nor ends with white space,
    then either white space only or a line feed followed by anything at
    all: the line is what is parsed as JSON.  What it parses to settles
    the promise, and when it does not parse the promise is fulfilled with
    an "Invalid JSON response" error; the white space around and
    whatever follows the line feed are discarded.  For every buffer, the
    text parsed is the trimmed buffer up to its first line feed, where
    trimming removes the white space around a text that neither begins
    nor ends with white space, and leaves nothing of white space alone.
    For the output {"status":"ok","data":"first"}, a line feed and
    {"garbage"}, also with blank lines before and after, the value is the
    object with [status] "ok" and [data] "first". *)
Theorem first_line_only :
  (forall (config : Config) (command : jsstring) (imageName : option jsstring)
          (server : Server) (pre post : list SocketEvent)
          (lead line tail : jsstring),
      getServer config imageName = Return server ->
      port server <> None ->
      existsb terminal pre = false ->
      received pre = lead ++ line ++ tail ->
      forallb is_js_whitespace lead = true ->
      is_js_whitespace (hd Notions.space line) = false ->
      is_js_whitespace (last line Notions.space) = false ->
      ~ In newline line ->
      forallb is_js_whitespace tail = true \/ (exists rest, tail = newline :: rest) ->
      let st := sendCommand config command imageName (pre ++ OnEnd :: post) in
      (forall result,
          JSON_parse line = Return result ->
          promise st =
          Fulfilled match on_end_result server result with
                    | Return value => value
                    | Throw message =>
                        JObject [(js "status", JString (js "error"));
                                 (js "message",
                                  JString (js "Invalid JSON response: " ++ message))]
                    end)
      /\ (forall result members,
            JSON_parse line = Return result -> result = JObject members ->
            member members (js "status") <> Some (JString (js "error")) ->
            promise st = Fulfilled result)
      /\ ((exists reason, JSON_parse line = Throw reason) ->
          exists text,
            promise st =
            Fulfilled (JObject [(js "status", JString (js "error"));
                                (js "message",
                                 JString (js "Invalid JSON response: " ++ text))])))
  /\ (forall (config : Config) (command : jsstring) (imageName : option jsstring)
             (server : Server) (pre post : list SocketEvent) (result : JSON),
        getServer config imageName = Return server ->
        port server <> None ->
        existsb terminal pre = false ->
        JSON_parse (first_line (trim (received pre))) = Return result ->
        promise (sendCommand config command imageName (pre ++ OnEnd :: post)) =
        Fulfilled match on_end_result server result with
                  | Return value => value
                  | Throw message =>
                      JObject [(js "status", JString (js "error"));
                               (js "message",
                                JString (js "Invalid JSON response: " ++ message))]
                  end)
  /\ (forall lead core trail : jsstring,
        forallb is_js_whitespace lead = true ->
        forallb is_js_whitespace trail = true ->
        core = []
        \/ (is_js_whitespace (hd Notions.space core) = false
            /\ is_js_whitespace (last core Notions.space) = false) ->
        trim (lead ++ core ++ trail) = core)
  /\ (forall line rest : jsstring,
        ~ In newline line ->
        first_line (line ++ newline :: rest) = line /\ first_line line = line)
  /\ promise (sendCommand legacy_config (js "PING") None
                [OnConnect;
                 OnData (jsq "{'status':'ok','data':'first'}" ++ [newline]
                         ++ jsq "{'garbage'}");
                 OnEnd]) =
     Fulfilled (JObject [(js "status", JString (js "ok"));
                         (js "data", JString (js "first"))])
  /\ promise (sendCommand legacy_config (js "PING") None
                [OnConnect;
                 OnData ([newline] ++ js "  "
                         ++ jsq "{'status':'ok','data':'first'}" ++ [newline]
                         ++ jsq "{'garbage'}" ++ [newline; newline]);
                 OnEnd]) =
     Fulfilled (JObject [(js "status", JString (js "ok"));
                         (js "data", JString (js "first"))])
  /\ promise (sendCommand legacy_config (js "PING") None
                [OnConnect;
                 OnData (js " " ++ jsq "{'status':'ok','data':'first'}");
                 OnData (js "  " ++ [newline]);
                 OnEnd]) =
     Fulfilled (JObject [(js "status", JString (js "ok"));
                         (js "data", JString (js "first"))]).
Proof.
  split; [| split; [| split; [| split; [| repeat split; vm_compute; reflexivity]]]].
  2: { intros config command imageName server pre post result Hget Hport Hpre Hparse.
       rewrite (@sendCommand_end config command imageName server pre post
                  Hget Hport Hpre).
       rewrite Hparse. simpl. now destruct (on_end_result server result). }
  2: { exact trim_spec. }
  2: { intros line rest Hnl.
       split; [now apply first_line_discards | now apply first_line_nlfree]. }
  intros config command imageName server pre post lead line tail
         Hget Hport Hpre Hbuffer Hlead Hfirst Hlast Hnl Htail st.
  assert (Hst : promise st =
                Fulfilled
                  match bind (JSON_parse line) (on_end_result server) with
                  | Return value => value
                  | Throw message =>
                      error_envelope (js "Invalid JSON response: " ++ message)
                  end).
  { subst st. rewrite (@sendCommand_end config command imageName server pre post
                         Hget Hport Hpre).
    now rewrite Hbuffer, first_line_trimmed. }
  rewrite Hst. clear Hst. split; [| split].
  - intros result ->. simpl. now destruct (on_end_result server result).
  - intros result members -> -> Hstatus. simpl. rewrite on_end_result_object.
    replace (is_string (member members (js "status")) (js "error")) with false;
      [reflexivity |].
    symmetry. apply not_true_is_false. intros H. apply is_string_spec in H.
    contradiction.
  - intros [reason ->]. simpl. now exists reason.
Qed.

Lemma first_line_only_witness :
  getServer legacy_config None
  = Return {| name := Some (js "default"); host := Some (js "localhost");
              port := Some {| port_number := 9999; port_in_range := eq_refl |};
              apiKey := KeyUndefined |}
  /\ JSON_parse (jsq "{'status':'ok'}") = Return (JObject [(js "status", JString (js "ok"))])
  /\ promise (sendCommand legacy_config (js "PING") None
                ([OnConnect;
                  OnData ([newline] ++ js " " ++ jsq "{'status':'ok'}"
                          ++ newline :: jsq "{'garbage'}")]
                 ++ OnEnd :: [])) =
     Fulfilled (JObject [(js "status", JString (js "ok"))]).
Proof.
  split; [reflexivity |]. split; [reflexivity |].
  refine (proj1 (proj2 (proj1 first_line_only legacy_config (js "PING") None _
           [OnConnect;
            OnData ([newline] ++ js " " ++ jsq "{'status':'ok'}"
                    ++ newline :: jsq "{'garbage'}")]
           [] ([newline] ++ js " ") (jsq "{'status':'ok'}")
           (newline :: jsq "{'garbage'}")
           eq_refl ltac:(discriminate) eq_refl eq_refl eq_refl eq_refl eq_refl
           _ (or_intror (ex_intro _ _ eq_refl))))
          _ [(js "status", JString (js "ok"))] eq_refl eq_refl ltac:(discriminate)).
  vm_compute. intuition discriminate.
Defined.

(** The lines written to the socket of a known server. *)
Lemma sendCommand_written config command imageName events server :
  getServer config imageName = Return server ->
  Tools.written (sendCommand config command imageName events) =
  map (fun _ => prefix server ++ command ++ [newline]) (filter is_connect events).
Proof.
  intros Hget. rewrite (@sendCommand_known _ _ _ _ _ Hget).
  now rewrite run_written.
Qed.

Lemma verb_starts_command tool : exists rest, Tools.command_of tool = Tools.verb tool ++ rest.
Proof. now exists (Tools.arguments tool). Qed.

(** C5.  The socket is written to once for each [connect] event, with one
    line: when the resolved server has an API key (a non-empty string) the
    line is "AUTH:", the key, a space, the command and a line feed; when
    it has none the line is the command and a line feed, and so starts
    with the verb of the command. *)
Theorem auth_prefix_on_connect :
  forall (config : Config) (command : jsstring) (imageName : option jsstring)
         (events : list SocketEvent) (server : Server),
    getServer config imageName = Return server ->
    let lines := Tools.written (sendCommand config command imageName events) in
    (forall key, apiKey server = KeyString key -> key <> [] ->
       lines = map (fun _ => js "AUTH:" ++ key ++ js " " ++ command ++ [newline])
                   (filter is_connect events))
    /\ (apiKey server = KeyUndefined ->
        lines = map (fun _ => command ++ [newline]) (filter is_connect events))
    /\ (apiKey server = KeyUndefined ->
        forall tool line, command = Tools.command_of tool -> In line lines ->
                          starts_with (Tools.verb tool) line = true).
Proof.
  intros config command imageName events server Hget lines. subst lines.
  rewrite sendCommand_written with (server := server) by exact Hget. unfold prefix. repeat split.
  - intros key Hkey Hne. rewrite Hkey. simpl.
    destruct (jsstring_eqb key []) eqn:E.
    + apply jsstring_eqb_eq in E. contradiction.
    + simpl. apply map_ext. intros _. now rewrite <- !app_assoc.
  - intros Hkey. now rewrite Hkey.
  - intros Hkey tool line -> Hin. rewrite Hkey in Hin. simpl in Hin.
    apply in_map_iff in Hin as [ev [<- _]].
    apply starts_with_spec. unfold Tools.command_of.
    exists (Tools.arguments tool ++ [newline]). now rewrite <- app_assoc.
Qed.

Lemma auth_prefix_on_connect_witness :
  getServer (config_with_key (KeyString (js "secret"))) None
  = Return {| name := Some (js "default"); host := Some (js "localhost");
              port := Some {| port_number := 9999; port_in_range := eq_refl |};
              apiKey := KeyString (js "secret") |}
  /\ Tools.written (sendCommand (config_with_key (KeyString (js "secret")))
                      (js "PING") None [OnConnect; OnEnd])
     = [js "AUTH:secret PING" ++ [newline]].
Proof.
  split; [reflexivity |].
  exact (proj1 (auth_prefix_on_connect (config_with_key (KeyString (js "secret")))
                  (js "PING") None [OnConnect; OnEnd] eq_refl)
               (js "secret") eq_refl ltac:(discriminate)).
Defined.

(** C10.  An [apiKey] that is falsy (the empty string, [null], [false] or
    absent) gives the line without prefix, the very line written when no
    key is configured; the "AUTH:" prefix is written exactly for a truthy
    key. *)
Theorem falsy_apiKey_no_prefix :
  forall (config : Config) (command : jsstring) (imageName : option jsstring)
         (events : list SocketEvent) (server : Server),
    getServer config imageName = Return server ->
    let lines := Tools.written (sendCommand config command imageName events) in
    (truthy (apiKey server) = false ->
       lines = map (fun _ => command ++ [newline]) (filter is_connect events))
    /\ (truthy (apiKey server) = true ->
        lines = map (fun _ => js "AUTH:" ++ ApiKey_toString (apiKey server) ++ js " "
                              ++ command ++ [newline])
                    (filter is_connect events))
    /\ (forall key, truthy key = false <->
                    key = KeyString [] \/ key = KeyNull \/ key = KeyUndefined
                    \/ key = KeyBool false).
Proof.
  intros config command imageName events server Hget lines. subst lines.
  rewrite sendCommand_written with (server := server) by exact Hget. unfold prefix. repeat split.
  - intros Hkey. now rewrite Hkey.
  - intros Hkey. rewrite Hkey. apply map_ext. intros _. now rewrite <- !app_assoc.
  - destruct key as [| |[|]|[|c s]]; simpl; intros H; try discriminate; auto.
  - intros [->|[->|[->| ->]]]; reflexivity.
Qed.

Lemma falsy_apiKey_no_prefix_witness :
  getServer (config_with_key (KeyString [])) None
  = Return {| name := Some (js "default"); host := Some (js "localhost");
              port := Some {| port_number := 9999; port_in_range := eq_refl |};
              apiKey := KeyString [] |}
  /\ truthy (KeyString []) = false
  /\ Tools.written (sendCommand (config_with_key (KeyString []))
                      (js "PING") None [OnConnect; OnEnd])
     = [js "PING" ++ [newline]].
Proof.
  split; [reflexivity |]. split; [reflexivity |].
  exact (proj1 (falsy_apiKey_no_prefix (config_with_key (KeyString []))
                  (js "PING") None [OnConnect; OnEnd] eq_refl) eq_refl).
Defined.

(** C6.  When the first line of the response of a server parses to an
    error envelope with the code AUTH_REQUIRED, the promise resolves to
    an object with the status "error" and the message "Authentication
    required for '<name>'. Add apiKey to your config.", which has the
    name of the resolved server in quotes; with the code AUTH_FAILED the
    message is "Invalid API key for '<name>'. Check your configuration.".
    Every other parsed value except [null], so every other envelope, is
    resolved as it was parsed. *)
Theorem auth_errors_rewritten :
  forall (config : Config) (command : jsstring) (imageName : option jsstring)
         (server : Server) (pre post : list SocketEvent) (result : JSON),
    getServer config imageName = Return server ->
    port server <> None ->
    existsb terminal pre = false ->
    JSON_parse (first_line (trim (received pre))) = Return result ->
    let st := sendCommand config command imageName (pre ++ OnEnd :: post) in
    (error_with_code result (js "AUTH_REQUIRED") ->
       exists message,
         promise st = Fulfilled (JObject [(js "status", JString (js "error"));
                                          (js "message", JString message)])
         /\ message = js "Authentication required for '" ++ show (name server)
                      ++ js "'. Add apiKey to your config."
         /\ Includes (js "Authentication required") message
         /\ Includes (js "Add apiKey") message
         /\ Includes (js "'" ++ show (name server) ++ js "'") message)
    /\ (error_with_code result (js "AUTH_FAILED") ->
        exists message,
          promise st = Fulfilled (JObject [(js "status", JString (js "error"));
                                           (js "message", JString message)])
          /\ message = js "Invalid API key for '" ++ show (name server)
                       ++ js "'. Check your configuration."
          /\ Includes (js "Invalid API key") message
          /\ Includes (js "'" ++ show (name server) ++ js "'") message)
    /\ (result <> JNull ->
        ~ error_with_code result (js "AUTH_REQUIRED") ->
        ~ error_with_code result (js "AUTH_FAILED") ->
        promise st = Fulfilled result).
Proof.
  intros config command imageName server pre post result Hget Hport Hpre Hparse st.
  assert (Hst : promise st =
                Fulfilled match on_end_result server result with
                          | Return value => value
                          | Throw message =>
                              error_envelope (js "Invalid JSON response: " ++ message)
                          end).
  { subst st. rewrite (@sendCommand_end config command imageName server pre post
                         Hget Hport Hpre).
    now rewrite Hparse. }
  rewrite Hst. clear Hst. split; [| split].
  - intros H. pose proof H as [members [-> _]].
    apply error_with_code_tests in H.
    rewrite on_end_result_object, H. eexists. split; [reflexivity |].
    split; [reflexivity |]. split; [| split].
    + exists [], (js " for '" ++ show (name server) ++ js "'. Add apiKey to your config.").
      reflexivity.
    + exists (js "Authentication required for '" ++ show (name server) ++ js "'. "),
             (js " to your config.").
      now rewrite <- !app_assoc.
    + exists (js "Authentication required for "), (js ". Add apiKey to your config.").
      now rewrite <- !app_assoc.
  - intros H. pose proof H as [members [-> [Hs Hc]]].
    apply error_with_code_tests in H.
    rewrite on_end_result_object, H.
    replace (is_string (member members (js "code")) (js "AUTH_REQUIRED")) with false
      by (rewrite Hc; reflexivity).
    rewrite andb_false_r. eexists. split; [reflexivity |].
    split; [reflexivity |]. split.
    + exists [], (js " for '" ++ show (name server) ++ js "'. Check your configuration.").
      reflexivity.
    + exists (js "Invalid API key for "), (js ". Check your configuration.").
      now rewrite <- !app_assoc.
  - intros Hnull Hrequired Hfailed.
    destruct result as [| | | | |members];
      try (rewrite on_end_result_other; [reflexivity | assumption | discriminate]).
    rewrite on_end_result_object.
    rewrite error_with_code_tests in Hrequired, Hfailed.
    apply not_true_is_false in Hrequired, Hfailed.
    now rewrite Hrequired, Hfailed.
Qed.

Lemma auth_errors_rewritten_witness :
  existsb terminal [OnConnect; OnData (jsq "{'status':'error','code':'AUTH_REQUIRED'}")]
  = false
  /\ error_with_code
       (JObject [(js "status", JString (js "error"));
                 (js "code", JString (js "AUTH_REQUIRED"))])
       (js "AUTH_REQUIRED")
  /\ exists message,
       promise (sendCommand legacy_config (js "PING") None
                  ([OnConnect; OnData (jsq "{'status':'error','code':'AUTH_REQUIRED'}")]
                   ++ OnEnd :: []))
       = Fulfilled (JObject [(js "status", JString (js "error"));
                             (js "message", JString message)])
       /\ message = js "Authentication required for '" ++ js "default"
                    ++ js "'. Add apiKey to your config."
       /\ Includes (js "Authentication required") message
       /\ Includes (js "Add apiKey") message
       /\ Includes (js "'" ++ js "default" ++ js "'") message.
Proof.
  assert (H : error_with_code
                (JObject [(js "status", JString (js "error"));
                          (js "code", JString (js "AUTH_REQUIRED"))])
                (js "AUTH_REQUIRED")).
  { eexists. split; [reflexivity |]. split; reflexivity. }
  split; [reflexivity |]. split; [exact H |].
  exact (proj1 (auth_errors_rewritten legacy_config (js "PING") None
                  [OnConnect; OnData (jsq "{'status':'error','code':'AUTH_REQUIRED'}")]
                  [] eq_refl ltac:(discriminate) eq_refl eq_refl) H).
Defined.

End ChannelProperties.

(** ** The command lines of the tool handlers *)

Module CommandLines.
Import RegexFacts PatternFacts ValidationFacts Validation.
Import Channel Traces ChannelFacts ChannelProperties Encoding Tools.

Lemma nlfree_spec s : nlfree s = true <-> ~ In newline s.
Proof.
  unfold nlfree. rewrite negb_true_iff. split.
  - intros H Hin. assert (existsb (N.eqb newline) s = true); [| congruence].
    apply existsb_exists. exists newline. split; [exact Hin | apply N.eqb_refl].
  - intros H. destruct (existsb (N.eqb newline) s) eqn:E; [| reflexivity].
    apply existsb_exists in E as [c [Hin Hc]]. apply N.eqb_eq in Hc. subst c.
    contradiction.
Qed.

Lemma nlfree_false s : nlfree s = false -> In newline s.
Proof.
  unfold nlfree. rewrite negb_false_iff. intros H.
  apply existsb_exists in H as [c [Hin Hc]]. apply N.eqb_eq in Hc. now subst c.
Qed.

Lemma nlfree_app a b : nlfree (a ++ b) = nlfree a && nlfree b.
Proof. unfold nlfree. now rewrite existsb_app, negb_orb. Qed.

Lemma nlfree_app_intro a b :
  nlfree a = true -> nlfree b = true -> nlfree (a ++ b) = true.
Proof. intros Ha Hb. now rewrite nlfree_app, Ha, Hb. Qed.

Lemma safe_nlfree s : test_search DANGEROUS_CHARS s = false -> nlfree s = true.
Proof. intros H. apply nlfree_spec. now apply dangerous_newline. Qed.

Lemma validateClassName_nlfree s :
  valid (validateClassName (VString s)) = true -> nlfree s = true.
Proof. intros H. apply validateClassName_valid in H. now apply safe_nlfree. Qed.

Lemma validateSelector_nlfree s :
  valid (validateSelector (VString s)) = true -> nlfree s = true.
Proof. intros H. apply validateSelector_valid in H. now apply safe_nlfree. Qed.

Lemma validatePattern_nlfree s :
  valid (validatePattern (VString s)) = true -> nlfree s = true.
Proof.
  intros H. apply validatePattern_valid in H as [_ [-> | [-> | H]]];
    [reflexivity | reflexivity | now apply safe_nlfree].
Qed.

Lemma Side_nlfree side : nlfree (Side_toString side) = true.
Proof. now destruct side. Qed.

(** Base64 text consists of letters, digits, "+", "/" and "=". *)
Lemma base64_digit_not_newline n : (newline =? base64_digit n)%N = false.
Proof.
  apply N.eqb_neq. unfold base64_digit, newline.
  change (cu "A") with 65%N. change (cu "a") with 97%N. change (cu "0") with 48%N.
  change (cu "+") with 43%N. change (cu "/") with 47%N.
  destruct (N.ltb_spec n 26); [lia |].
  destruct (N.ltb_spec n 52); [lia |].
  destruct (N.ltb_spec n 62); [lia |].
  destruct (n =? 62)%N; lia.
Qed.

Lemma base64_nlfree_bounded : forall (n : nat) (bytes : list byte),
  (List.length bytes <= n)%nat -> nlfree (base64 bytes) = true.
Proof.
  induction n as [|n IH]; intros bytes Hlen.
  - destruct bytes; [reflexivity | simpl in Hlen; lia].
  - destruct bytes as [|a [|b [|c rest]]].
    + reflexivity.
    + unfold nlfree. cbn [base64 existsb]. now rewrite !base64_digit_not_newline.
    + unfold nlfree. cbn [base64 existsb]. now rewrite !base64_digit_not_newline.
    + cbn [base64]. apply nlfree_app_intro.
      * unfold nlfree. cbn [existsb]. now rewrite !base64_digit_not_newline.
      * apply IH. simpl in Hlen. lia.
Qed.

Lemma base64_nlfree bytes : nlfree (base64 bytes) = true.
Proof. apply base64_nlfree_bounded with (n := List.length bytes). apply Nat.le_refl. Qed.

Lemma first_invalid_none checks :
  first_invalid checks = None -> Forall (fun r => valid r = true) checks.
Proof.
  induction checks as [|r checks IH]; simpl; intros H; [constructor |].
  destruct (valid r) eqn:E; [| discriminate]. constructor; auto.
Qed.

Ltac checks_passed H :=
  cbn [validations app first_invalid] in H;
  repeat match type of H with
         | (if valid ?r then _ else _) = None =>
             let E := fresh "Hvalid" in
             destruct (valid r) eqn:E; [| discriminate H]
         end.

Ltac nlfree_parts :=
  repeat match goal with
         | |- nlfree (_ ++ _) = true => apply nlfree_app_intro
         end;
  first [ reflexivity
        | apply base64_nlfree
        | apply Side_nlfree
        | now apply validateClassName_nlfree
        | now apply validateSelector_nlfree
        | now apply validatePattern_nlfree ].

(** The command of every tool but [eval_smalltalk] has no line feed once
    its validations have passed. *)
Lemma command_nlfree tool image :
  (forall expression, tool <> eval_smalltalk expression) ->
  first_invalid (validations tool image) = None ->
  nlfree (command_of tool) = true.
Proof.
  intros Hnot H. unfold command_of.
  destruct tool; checks_passed H; cbn [verb arguments]; try solve [nlfree_parts].
  exfalso. eapply Hnot. reflexivity.
Qed.

Lemma prefix_nlfree server :
  nlfree (ApiKey_toString (apiKey server)) = true -> nlfree (prefix server) = true.
Proof.
  intros H. unfold prefix. destruct (truthy (apiKey server)); [| reflexivity].
  rewrite !nlfree_app, H. reflexivity.
Qed.

(** C1 as stated fails: [validateExpression] accepts an expression with a
    line feed, and the line written for it has that line feed before the
    final one. *)
Lemma eval_command_embedded_newline :
  let expression := js "| x |" ++ [newline] ++ js "x := 1." in
  let line := js "EVAL | x |" ++ [newline] ++ js "x := 1." ++ [newline] in
  valid (validateExpression (VString expression)) = true
  /\ In newline expression
  /\ (exists st,
        run legacy_config (eval_smalltalk expression) None [OnConnect; OnEnd] = inr st
        /\ written st = [line])
  /\ ~ single_line line.
Proof.
  intros expression line. split; [reflexivity |].
  split; [apply nlfree_false; reflexivity |].
  split; [eexists; split; reflexivity |].
  intros [body [E Hbody]].
  assert (Hline : line = removelast line ++ [newline]) by reflexivity.
  rewrite Hline in E. apply app_inj_tail in E as [E _]. subst body.
  apply Hbody. apply nlfree_false. reflexivity.
Qed.

(** C1, amended.  Accepted class names, selectors and patterns contain no
    line feed, while [validateExpression] and [validateSource] accept
    text with line feeds.  For every tool but [eval_smalltalk] whose
    validations pass, each line written to the socket is the prefix of
    the resolved server, the command and a line feed, the command has no
    line feed, and when the API key has none either the line feed at the
    end is the only one of the line. *)
Theorem command_line_newlines :
  (forall s, valid (validateClassName (VString s)) = true -> ~ In newline s)
  /\ (forall s, valid (validateSelector (VString s)) = true -> ~ In newline s)
  /\ (forall s, valid (validatePattern (VString s)) = true -> ~ In newline s)
  /\ valid (validateExpression
             (VString (js "| x |" ++ [newline] ++ js "x := 1."))) = true
  /\ valid (validateSource (VString (js "myMethod" ++ [newline] ++ js "^42"))) = true
  /\ (forall (config : Config) (tool : Tool) (image : option jsstring)
            (events : list SocketEvent) (st : Call) (line : jsstring),
        (forall expression, tool <> eval_smalltalk expression) ->
        run config tool image events = inr st ->
        In line (written st) ->
        exists server,
          getServer config image = Return server
          /\ line = prefix server ++ command_of tool ++ [newline]
          /\ ~ In newline (command_of tool)
          /\ (~ In newline (ApiKey_toString (apiKey server)) -> single_line line)).
Proof.
  split; [intros s H; now apply nlfree_spec, validateClassName_nlfree |].
  split; [intros s H; now apply nlfree_spec, validateSelector_nlfree |].
  split; [intros s H; now apply nlfree_spec, validatePattern_nlfree |].
  split; [reflexivity |]. split; [reflexivity |].
  intros config tool image events st line Hnot Hrun Hin.
  unfold run in Hrun.
  destruct (first_invalid (validations tool image)) eqn:Hchecks; [discriminate |].
  injection Hrun as <-.
  pose proof (@command_nlfree tool image Hnot Hchecks) as Hcommand.
  destruct (getServer config image) as [server|message] eqn:Hget.
  - exists server. split; [reflexivity |].
    rewrite sendCommand_written with (server := server) in Hin by exact Hget.
    apply in_map_iff in Hin as [ev [<- _]].
    split; [reflexivity |]. split; [now apply nlfree_spec |].
    intros Hkey. exists (prefix server ++ command_of tool).
    split; [now rewrite <- app_assoc |].
    apply nlfree_spec. apply nlfree_app_intro; [| exact Hcommand].
    apply prefix_nlfree. now apply nlfree_spec.
  - rewrite (@sendCommand_unknown _ _ _ _ _ Hget) in Hin. destruct Hin.
Qed.

Lemma command_line_newlines_witness :
  run legacy_config (source (js "Core.Object") (js "at:put:")) None [OnConnect; OnEnd]
  = inr (sendCommand legacy_config (js "SOURCE Core.Object at:put:") None
           [OnConnect; OnEnd])
  /\ In (js "SOURCE Core.Object at:put:" ++ [newline])
        (written (sendCommand legacy_config (js "SOURCE Core.Object at:put:") None
                    [OnConnect; OnEnd]))
  /\ exists server,
       getServer legacy_config None = Return server
       /\ js "SOURCE Core.Object at:put:" ++ [newline]
          = prefix server ++ command_of (source (js "Core.Object") (js "at:put:"))
            ++ [newline]
       /\ ~ In newline (command_of (source (js "Core.Object") (js "at:put:")))
       /\ (~ In newline (ApiKey_toString (apiKey server)) ->
           single_line (js "SOURCE Core.Object at:put:" ++ [newline])).
Proof.
  assert (H1 : run legacy_config (source (js "Core.Object") (js "at:put:")) None
                 [OnConnect; OnEnd]
               = inr (sendCommand legacy_config (js "SOURCE Core.Object at:put:") None
                        [OnConnect; OnEnd])) by reflexivity.
  assert (H2 : In (js "SOURCE Core.Object at:put:" ++ [newline])
                  (written (sendCommand legacy_config (js "SOURCE Core.Object at:put:")
                              None [OnConnect; OnEnd]))) by (left; reflexivity).
  split; [exact H1 |]. split; [exact H2 |].
  exact (proj2 (proj2 (proj2 (proj2 (proj2 command_line_newlines))))
           legacy_config (source (js "Core.Object") (js "at:put:")) None
           [OnConnect; OnEnd] _ _ ltac:(discriminate) H1 H2).
Defined.

End CommandLines.

(** ** Further properties of the validators *)

Module ValidatorProperties.
Import RegexFacts PatternFacts ValidationFacts Validation Notions.

(** Turns the tests of character classes into arithmetic. *)
Ltac class_arith :=
  unfold letter, lower, alnum, alnum_lower_first, binary_char, dangerous_char,
    expression_control_char, host_edge, host_inner, server_name_first,
    server_name_rest, Shapes.alphanumeric, Shapes.lowercase, Shapes.uppercase,
    Shapes.digit, range, hexrange, chr, space, Traces.newline in *;
  repeat match goal with
         | |- context [cu ?a] =>
             let v := eval vm_compute in (cu a) in change (cu a) with v
         | H : context [cu ?a] |- _ =>
             let v := eval vm_compute in (cu a) in change (cu a) with v in H
         end;
  rewrite ?orb_true_iff, ?andb_true_iff, ?orb_false_iff, ?andb_false_iff,
    ?N.leb_le, ?N.leb_gt, ?N.eqb_eq, ?N.eqb_neq in *;
  lia.

Lemma Lang_within (P : codeunit -> Prop) r s :
  Lang r s -> classes_within P r -> Forall P s.
Proof.
  intros H. induction H as [|p c Hc|r1 r2 s1 s2 _ IH1 _ IH2|r1 r2 s _ IH|r1 r2 s _ IH
                            |r|r s1 s2 _ IH1 _ IH2]; simpl; intros Hr.
  - constructor.
  - constructor; [now apply Hr | constructor].
  - apply Forall_app. split; [apply IH1 | apply IH2]; tauto.
  - apply IH. tauto.
  - apply IH. tauto.
  - constructor.
  - apply Forall_app. split; [apply IH1 | apply IH2]; assumption.
Qed.

Lemma matches_within (P : codeunit -> Prop) r s :
  test_anchored r s = true -> classes_within P r -> Forall P s.
Proof. intros H. apply Lang_within. now apply matches_Lang. Qed.

Lemma safe_forall s :
  Forall (fun c => dangerous_char c = false) s -> test_search DANGEROUS_CHARS s = false.
Proof.
  intros H. apply test_search_class_false. now apply Forall_forall.
Qed.

Lemma control_dangerous c :
  expression_control_char c = true -> dangerous_char c = true.
Proof. intros H. class_arith. Qed.

Lemma length_ceilings s :
  (jslength s >? MAX_INPUT_LENGTH)%Z = false -> (jslength s >? MAX_SOURCE_LENGTH)%Z = false.
Proof.
  unfold MAX_INPUT_LENGTH, MAX_SOURCE_LENGTH. rewrite !Z.gtb_ltb, !Z.ltb_ge. lia.
Qed.

(** X1.  The validators are nested: whatever [validateClassName] or
    [validateSelector] accepts, [validatePattern] accepts; a non-empty
    pattern that is accepted is accepted as an expression; and an accepted
    expression is accepted as source. *)
Theorem validators_nested :
  forall s : jsstring,
    (valid (validateClassName (VString s)) = true ->
     valid (validatePattern (VString s)) = true)
    /\ (valid (validateSelector (VString s)) = true ->
        valid (validatePattern (VString s)) = true)
    /\ (valid (validatePattern (VString s)) = true -> s <> [] ->
        valid (validateExpression (VString s)) = true)
    /\ (valid (validateExpression (VString s)) = true ->
        valid (validateSource (VString s)) = true).
Proof.
  intros s. repeat split.
  - intros H. apply validateClassName_valid in H as [_ [H1 [H2 _]]].
    apply validatePattern_valid. auto.
  - intros H. apply validateSelector_valid in H as [_ [H1 [H2 _]]].
    apply validatePattern_valid. auto.
  - intros H Hne. apply validatePattern_valid in H as [H1 H2].
    apply validateExpression_valid. split; [| split; [exact H1 |]].
    + destruct (jslength s =? 0)%Z eqn:E; [| reflexivity].
      apply jslength_zero in E. contradiction.
    + destruct H2 as [-> | [-> | H2]]; [contradiction | reflexivity |].
      apply test_search_class_false. intros c Hc.
      unfold DANGEROUS_CHARS in H2. rewrite test_search_class_false in H2.
      specialize (H2 c Hc). destruct (expression_control_char c) eqn:E; [| reflexivity].
      apply control_dangerous in E. congruence.
  - intros H. apply validateExpression_valid in H as [H0 [H1 H2]].
    apply validateSource_valid. split; [exact H0 |]. split; [now apply length_ceilings |].
    destruct (has_null_byte s) eqn:E; [| reflexivity].
    apply has_null_byte_In in E. rewrite test_search_class_false in H2.
    specialize (H2 _ E). discriminate.
Qed.

Lemma validators_nested_witness :
  valid (validateClassName (VString (js "Core.Object"))) = true
  /\ valid (validatePattern (VString (js "Core.Object"))) = true.
Proof.
  split; [reflexivity |].
  exact (proj1 (validators_nested (js "Core.Object")) eq_refl).
Defined.

(** The language of the host name pattern. *)
Lemma hostname_pattern s :
  test_anchored hostnamePattern s = true <-> host_shape s.
Proof.
  unfold test_anchored, hostnamePattern, Opt, host_shape. rewrite matches_Lang. split.
  - intros H. apply Lang_Cat_inv in H as [s1 [s2 [-> [H1 H2]]]].
    apply Lang_Class_inv in H1 as [c [-> Hc]]. exists c. split; [exact Hc |].
    apply Lang_Alt_inv in H2 as [H2|H2].
    + right. apply Lang_Cat_inv in H2 as [s3 [s4 [-> [H3 H4]]]].
      apply Lang_star_class in H3. apply Lang_Class_inv in H4 as [d [-> Hd]].
      now exists s3, d.
    + left. apply Lang_Eps_inv in H2. now subst s2.
  - intros [c [Hc [-> | [middle [d [-> [Hm Hd]]]]]]].
    + change [c] with ([c] ++ []). apply LCat; [now constructor |].
      apply LAltR. constructor.
    + change (c :: middle ++ [d]) with ([c] ++ middle ++ [d]).
      apply LCat; [now constructor |]. apply LAltL.
      apply LCat; [now apply Lang_star_class | now constructor].
Qed.

Lemma validateHost_valid s :
  valid (validateHost (VString s)) = true <->
  (jslength s =? 0)%Z = false /\ (jslength s >? 253)%Z = false
  /\ test_search DANGEROUS_CHARS s = false
  /\ (test_anchored hostnamePattern s || jsstring_eqb s (js "localhost")) = true.
Proof.
  unfold validateHost.
  destruct (jslength s =? 0)%Z, (jslength s >? 253)%Z,
    (test_search DANGEROUS_CHARS s), (test_anchored hostnamePattern s),
    (jsstring_eqb s (js "localhost")); simpl; intuition congruence.
Qed.

Lemma hostname_classes :
  classes_within (fun c => dangerous_char c = false) hostnamePattern.
Proof.
  simpl. repeat split; trivial; intros c H;
    (destruct (dangerous_char c) eqn:E; [| reflexivity]); exfalso; class_arith.
Qed.

(** X2.  [validateHost] accepts a string exactly when it has from 1 to
    253 code units, begins and ends with a letter or digit and has only
    letters, digits, hyphens and dots between.  Neither the test for
    dangerous characters nor the exception made for "localhost" changes
    the outcome: "localhost" has that shape, and no character of the
    shape is dangerous. *)
Theorem validateHost_accepts :
  forall s : jsstring,
    (valid (validateHost (VString s)) = true
     <-> (1 <= jslength s <= 253)%Z /\ host_shape s)
    /\ (valid (validateHost (VString s)) = true
        <-> (jslength s <=? 253)%Z && test_anchored hostnamePattern s = true).
Proof.
  intros s.
  assert (Hlocal : jsstring_eqb s (js "localhost") = true ->
                   test_anchored hostnamePattern s = true).
  { intros H. apply jsstring_eqb_eq in H. subst s. reflexivity. }
  assert (Hshape : test_anchored hostnamePattern s = true ->
                   (jslength s =? 0)%Z = false /\ test_search DANGEROUS_CHARS s = false).
  { intros H. split.
    - destruct (jslength s =? 0)%Z eqn:E; [| reflexivity].
      apply jslength_zero in E. subst s. discriminate.
    - apply safe_forall. eapply matches_within; [exact H | exact hostname_classes]. }
  assert (Hcore : valid (validateHost (VString s)) = true
                  <-> (jslength s <=? 253)%Z && test_anchored hostnamePattern s = true).
  { rewrite validateHost_valid, andb_true_iff, orb_true_iff, Z.gtb_ltb, Z.ltb_ge, Z.leb_le.
    split.
    - intros [_ [H1 [_ [H|H]]]]; auto.
    - intros [H1 H]. destruct (Hshape H). auto. }
  split; [| exact Hcore].
  rewrite Hcore, andb_true_iff, Z.leb_le, hostname_pattern. split.
  - intros [H1 H]. split; [| exact H]. split; [| exact H1].
    apply hostname_pattern in H. destruct (Hshape H) as [H0 _].
    apply Z.eqb_neq in H0. unfold jslength in *. lia.
  - intros [[_ H1] H]. now split.
Qed.

Lemma validateServerName_string s :
  valid (validateServerName (VString s)) = true <->
  (jslength s =? 0)%Z = false /\ (jslength s >? 100)%Z = false
  /\ test_search DANGEROUS_CHARS s = false
  /\ test_anchored (Cat (Class server_name_first) (Star (Class server_name_rest))) s
     = true.
Proof.
  unfold validateServerName.
  destruct (jslength s =? 0)%Z, (jslength s >? 100)%Z,
    (test_search DANGEROUS_CHARS s),
    (test_anchored (Cat (Class server_name_first) (Star (Class server_name_rest))) s);
    simpl; intuition congruence.
Qed.

Lemma server_name_classes :
  classes_within (fun c => dangerous_char c = false)
    (Cat (Class server_name_first) (Star (Class server_name_rest))).
Proof.
  simpl. split; intros c H;
    (destruct (dangerous_char c) eqn:E; [| reflexivity]); exfalso; class_arith.
Qed.

(** X3.  [validateServerName] accepts [undefined] and [null], rejects
    every other value that is not a string, and accepts a string exactly
    when it has at most 100 code units and is a letter followed by
    letters, digits, underscores and hyphens. *)
Theorem validateServerName_accepts :
  forall v : JSValue,
    valid (validateServerName v) = true
    <-> v = VUndefined \/ v = VNull
        \/ exists s, v = VString s /\ (jslength s <= 100)%Z /\ server_name_shape s.
Proof.
  intros v. destruct v as [| |b|x|s|]; simpl;
    try (split; [auto | reflexivity]);
    try (split; [discriminate | intros [H|[H|[s [H _]]]]; discriminate]).
  change (valid (validateServerName (VString s)) = true
          <-> VString s = VUndefined \/ VString s = VNull
              \/ exists s0, VString s = VString s0 /\ (jslength s0 <= 100)%Z
                            /\ server_name_shape s0).
  rewrite validateServerName_string. unfold test_anchored, server_name_shape.
  rewrite matches_Lang, Lang_led, Z.gtb_ltb, Z.ltb_ge. split.
  - intros [_ [H1 [_ H]]]. right. right. now exists s.
  - intros [H|[H|[s0 [E [H1 H]]]]]; try discriminate. injection E as <-.
    split; [| split; [exact H1 | split; [| exact H]]].
    + destruct H as [c [rest [-> _]]]. reflexivity.
    + apply safe_forall. eapply Lang_within; [| exact server_name_classes].
      now apply Lang_led.
Qed.

End ValidatorProperties.

(** ** The fields of a command *)

Module CommandFraming.
Import RegexFacts PatternFacts ValidationFacts Validation Notions ValidatorProperties.
Import Channel Traces Encoding Tools.

Lemma identifier_classes :
  classes_within (fun c => Shapes.alphanumeric c = true \/ c = cu ".") IDENTIFIER_PATTERN.
Proof.
  simpl. repeat split; intros c H; try (right; now apply N.eqb_eq);
    left; unfold Shapes.alphanumeric, Shapes.lowercase, Shapes.uppercase, Shapes.digit;
    unfold letter, alnum in H;
    destruct (range "a" "z" c), (range "A" "Z" c), (range "0" "9" c);
    simpl in *; congruence.
Qed.

Lemma selector_classes r :
  r = UNARY_SELECTOR_PATTERN \/ r = BINARY_SELECTOR_PATTERN
  \/ r = KEYWORD_SELECTOR_PATTERN ->
  classes_within (fun c => Shapes.alphanumeric c = true \/ c = cu ":"
                           \/ In c Shapes.binary_symbols) r.
Proof.
  intros [-> | [-> | ->]]; simpl; repeat split; intros c H;
    try (right; left; now apply N.eqb_eq);
    try (right; right; now apply binary_char_symbols);
    left; unfold Shapes.alphanumeric, Shapes.lowercase, Shapes.uppercase, Shapes.digit;
    unfold lower, alnum_lower_first in H;
    destruct (range "a" "z" c), (range "A" "Z" c), (range "0" "9" c);
    simpl in *; congruence.
Qed.

Lemma class_name_characters s :
  valid (validateClassName (VString s)) = true ->
  Forall (fun c => Shapes.alphanumeric c = true \/ c = cu ".") s.
Proof.
  intros H. apply validateClassName_valid in H as [_ [_ [_ H]]].
  eapply matches_within; [exact H | exact identifier_classes].
Qed.

Lemma selector_characters s :
  valid (validateSelector (VString s)) = true ->
  Forall (fun c => Shapes.alphanumeric c = true \/ c = cu ":"
                   \/ In c Shapes.binary_symbols) s.
Proof.
  intros H. apply validateSelector_valid in H as [_ [_ [_ H]]].
  rewrite !orb_true_iff in H.
  destruct H as [[H|H]|H]; (eapply matches_within; [exact H |]);
    apply selector_classes; auto.
Qed.

(** X4.  An accepted class name consists of letters, digits and dots
    only, and an accepted selector of letters, digits, colons and the
    binary symbols only. *)
Theorem accepted_characters :
  forall s : jsstring,
    (valid (validateClassName (VString s)) = true ->
     Forall (fun c => Shapes.alphanumeric c = true \/ c = cu ".") s)
    /\ (valid (validateSelector (VString s)) = true ->
        Forall (fun c => Shapes.alphanumeric c = true \/ c = cu ":"
                         \/ In c Shapes.binary_symbols) s).
Proof.
  intros s. split; [apply class_name_characters | apply selector_characters].
Qed.

Lemma accepted_characters_witness :
  valid (validateSelector (VString (js "at:put:"))) = true
  /\ Forall (fun c => Shapes.alphanumeric c = true \/ c = cu ":"
                      \/ In c Shapes.binary_symbols) (js "at:put:").
Proof.
  split; [reflexivity |].
  exact (proj2 (accepted_characters (js "at:put:")) eq_refl).
Defined.

Lemma fields_spaceless a : spaceless a -> fields a = [a].
Proof.
  induction 1 as [|c a Hc _ IH]; simpl; [reflexivity |].
  apply N.eqb_neq in Hc. now rewrite Hc, IH.
Qed.

Lemma fields_app a b : spaceless a -> fields (a ++ space :: b) = a :: fields b.
Proof.
  induction 1 as [|c a Hc _ IH]; simpl.
  - reflexivity.
  - apply N.eqb_neq in Hc. now rewrite Hc, IH.
Qed.

Lemma fields_join l : forall x,
  Forall spaceless (x :: l) -> fields (join [space] (x :: l)) = x :: l.
Proof.
  induction l as [|y l IH]; intros x H; inversion H as [|? ? Hx Hl]; subst.
  - now apply fields_spaceless.
  - change (join [space] (x :: y :: l)) with (x ++ space :: join [space] (y :: l)).
    rewrite fields_app by exact Hx. now rewrite IH.
Qed.

Lemma command_join tool :
  command_of tool = join [space] (verb tool :: arguments_of tool).
Proof. destruct tool; reflexivity. Qed.

Lemma alphanumeric_not_space c : Shapes.alphanumeric c = true -> c <> space.
Proof. intros H. class_arith. Qed.

Lemma class_name_spaceless s :
  valid (validateClassName (VString s)) = true -> spaceless s.
Proof.
  intros H. eapply Forall_impl; [| exact (class_name_characters s H)].
  intros c [Hc | ->]; [now apply alphanumeric_not_space | discriminate].
Qed.

Lemma selector_spaceless s :
  valid (validateSelector (VString s)) = true -> spaceless s.
Proof.
  intros H. eapply Forall_impl; [| exact (selector_characters s H)].
  intros c [Hc | [-> | Hc]]; [now apply alphanumeric_not_space | discriminate |].
  intros ->. revert Hc. vm_compute. intuition discriminate.
Qed.

Lemma Side_spaceless side : spaceless (Side_toString side).
Proof.
  destruct side; apply Forall_forall; intros c Hc; intros ->; revert Hc;
    vm_compute; intuition discriminate.
Qed.

Lemma verb_spaceless tool : spaceless (verb tool).
Proof.
  destruct tool; apply Forall_forall; intros c Hc; intros ->; revert Hc;
    vm_compute; intuition discriminate.
Qed.

Lemma base64_digit_not_space n : base64_digit n <> space.
Proof.
  unfold base64_digit, space.
  change (cu "A") with 65%N. change (cu "a") with 97%N. change (cu "0") with 48%N.
  change (cu "+") with 43%N. change (cu "/") with 47%N.
  destruct (N.ltb_spec n 26); [lia |].
  destruct (N.ltb_spec n 52); [lia |].
  destruct (N.ltb_spec n 62); [lia |].
  destruct (n =? 62)%N; lia.
Qed.

Lemma base64_spaceless_bounded : forall (n : nat) (bytes : list byte),
  (List.length bytes <= n)%nat -> spaceless (base64 bytes).
Proof.
  assert (Hpad : cu "=" <> space) by discriminate.
  induction n as [|n IH]; intros bytes Hlen.
  - destruct bytes; [constructor | simpl in Hlen; lia].
  - destruct bytes as [|a [|b [|c rest]]]; cbn [base64].
    + constructor.
    + repeat constructor; auto using base64_digit_not_space.
    + repeat constructor; auto using base64_digit_not_space.
    + apply Forall_app. split.
      * repeat constructor; auto using base64_digit_not_space.
      * apply IH. simpl in Hlen. lia.
Qed.

Lemma base64_spaceless bytes : spaceless (base64 bytes).
Proof. apply base64_spaceless_bounded with (n := List.length bytes). apply Nat.le_refl. Qed.

(** X5.  The command of a tool whose validations pass, other than the
    tools that send free text (a pattern or an expression), splits at its
    spaces into the verb and exactly the arguments of the tool: no
    accepted class name or selector, no side and no Base64 text holds a
    space. *)
Theorem command_fields :
  forall (tool : Tool) (image : option jsstring),
    free_text tool = false ->
    first_invalid (validations tool image) = None ->
    fields (command_of tool) = verb tool :: arguments_of tool.
Proof.
  intros tool image Hfree H. rewrite command_join. apply fields_join.
  constructor; [apply verb_spaceless |].
  destruct tool; try discriminate Hfree; CommandLines.checks_passed H;
    try solve [ cbn [arguments_of]; repeat constructor;
                first [ now apply class_name_spaceless
                      | now apply selector_spaceless
                      | apply Side_spaceless
                      | apply base64_spaceless ] ].
  match goal with
  | |- Forall spaceless (arguments_of ?t) =>
      assert (E : exists bytes, arguments_of t = [base64 bytes])
        by (eexists; reflexivity);
      destruct E as [bytes ->]
  end.
  constructor; [apply base64_spaceless | constructor].
Qed.

Lemma command_fields_witness :
  fields (js "SOURCE Core.Object at:put:")
  = [js "SOURCE"; js "Core.Object"; js "at:put:"].
Proof.
  exact (command_fields (source (js "Core.Object") (js "at:put:")) None
           eq_refl eq_refl).
Defined.

End CommandFraming.

(** ** Further properties of the command channel *)

Module ChannelExtras.
Import Channel Traces Notions ChannelFacts ChannelProperties.

(** The entry found under a key, as [getServer] returns it. *)
Lemma getServer_own config key entry requested :
  serverName config requested = Some key ->
  own_property (servers config) key = Some entry ->
  getServer config requested =
  Return {| name := match entry_name entry with
                    | Some n => Some n
                    | None => Some key
                    end;
            host := entry_host entry;
            port := entry_port entry;
            apiKey := entry_apiKey entry |}.
Proof.
  intros Hname Hown. unfold getServer, servers_get. rewrite Hname. simpl.
  now rewrite Hown.
Qed.

Lemma own_property_head key entry rest :
  own_property ((key, entry) :: rest) key = Some entry.
Proof. simpl. now rewrite jsstring_eqb_refl. Qed.

(** X6.  How [getServer] chooses the server: a requested name that is
    not empty is looked up as it is; an absent or empty name stands for
    [config.default] when that is a non-empty string, and otherwise for
    the first entry of [config.servers].  A name found among the entries
    yields that entry's host, port and API key, under the entry's own
    [name] field if it has one and under the name looked up if not.
    With no entry and no default the absent name is reported as the
    unknown server "undefined". *)
Theorem getServer_resolution :
  forall (config : Config),
    (forall key entry, key <> [] ->
       own_property (servers config) key = Some entry ->
       getServer config (Some key) =
       Return {| name := match entry_name entry with
                         | Some n => Some n
                         | None => Some key
                         end;
                 host := entry_host entry; port := entry_port entry;
                 apiKey := entry_apiKey entry |})
    /\ getServer config (Some []) = getServer config None
    /\ (forall key, default config = Some key -> key <> [] ->
          getServer config None = getServer config (Some key))
    /\ (forall key entry rest,
          default config = None \/ default config = Some [] ->
          servers config = (key, entry) :: rest ->
          getServer config None =
          Return {| name := match entry_name entry with
                            | Some n => Some n
                            | None => Some key
                            end;
                    host := entry_host entry; port := entry_port entry;
                    apiKey := entry_apiKey entry |})
    /\ (default config = None \/ default config = Some [] ->
        servers config = [] ->
        getServer config None
        = Throw (js "Unknown server: undefined. Available: ")).
Proof.
  intros config. repeat split.
  - intros key entry Hne Hown. apply getServer_own; [| exact Hown].
    unfold serverName. destruct key; [contradiction | reflexivity].
  - intros key Hdefault Hne. unfold getServer, serverName. rewrite Hdefault.
    destruct key; [contradiction | reflexivity].
  - intros key entry rest Hdefault Hservers. apply getServer_own.
    + unfold serverName. rewrite Hservers. now destruct Hdefault as [-> | ->].
    + rewrite Hservers. apply own_property_head.
  - intros Hdefault Hservers. unfold getServer, serverName. rewrite Hservers.
    now destruct Hdefault as [-> | ->].
Qed.

Lemma getServer_resolution_witness :
  getServer dev_prod_config (Some (js "prod"))
  = Return {| name := Some (js "prod"); host := Some (js "prod.local");
              port := Some {| port_number := 9999; port_in_range := eq_refl |};
              apiKey := KeyUndefined |}.
Proof.
  exact (proj1 (getServer_resolution dev_prod_config) (js "prod") _
           ltac:(discriminate) eq_refl).
Defined.

(** X7.  For a known server [sendCommand] creates one socket, arms its
    timeout with 30000 ms and connects it once, to the port and host of
    the resolved server; after that it writes only on a [connect] event,
    the command line followed by [end()], and calls [destroy()] only on a
    [timeout] event, once for each.  No other call is ever made: nothing
    is retried. *)
Theorem socket_calls :
  forall (config : Config) (command : jsstring) (imageName : option jsstring)
         (events : list SocketEvent) (server : Server),
    getServer config imageName = Return server ->
    calls (sendCommand config command imageName events) =
    [NewSocket; SocketSetTimeout 30000; SocketConnect (port server) (host server)]
    ++ flat_map (calls_on server command) events.
Proof.
  intros config command imageName events server. apply sendCommand_calls.
Qed.

Lemma socket_calls_witness :
  calls (sendCommand legacy_config (js "PING") None [OnConnect; OnTimeout; OnEnd]) =
  [NewSocket; SocketSetTimeout 30000;
   SocketConnect (Some {| port_number := 9999; port_in_range := eq_refl |})
                 (Some (js "localhost"));
   SocketWrite (js "PING" ++ [newline]); SocketEnd; SocketDestroy].
Proof.
  exact (socket_calls legacy_config (js "PING") None [OnConnect; OnTimeout; OnEnd]
           eq_refl).
Defined.

(** A terminal event settles a pending promise. *)
Lemma emit_settles server command st ev :
  uncaught st = None -> promise st = Pending -> terminal ev = true ->
  exists value, promise (emit server command st ev) = Fulfilled value.
Proof.
  intros Hu Hp Hev. destruct ev as [|data| | |code message]; try discriminate.
  - rewrite emit_end by exact Hu. eexists. now apply resolve_pending.
  - rewrite emit_timeout by exact Hu. eexists. now apply resolve_pending.
  - destruct (@emit_error server command code message st Hu) as [text ->].
    eexists. now apply resolve_pending.
Qed.

(** X8.  The first of the events [end], [timeout] and [error] decides
    the result: whatever the socket emits afterwards, an error after the
    end for instance, the promise keeps the value it took. *)
Theorem first_terminal_event_wins :
  forall (config : Config) (command : jsstring) (imageName : option jsstring)
         (pre post : list SocketEvent) (ev : SocketEvent),
    existsb terminal pre = false -> terminal ev = true ->
    promise (sendCommand config command imageName (pre ++ ev :: post)) =
    promise (sendCommand config command imageName (pre ++ [ev])).
Proof.
  intros config command imageName pre post ev Hpre Hev.
  destruct (getServer config imageName) as [server|message] eqn:Hget.
  - destruct (port server) as [p|] eqn:Hport;
      [| now rewrite !(@sendCommand_rejected _ _ _ _ _ Hget Hport)].
    rewrite !(@sendCommand_known _ _ _ _ _ Hget), !fold_left_app. simpl.
    destruct (@run_before_terminal server command pre (started server) eq_refl Hpre)
      as [Hp [_ Hu]].
    set (st1 := fold_left (emit server command) pre (started server)) in *.
    rewrite (@started_pending server) in Hp by congruence.
    destruct (emit_settles server command st1 ev Hu Hp Hev) as [value E].
    rewrite E. apply run_fulfilled; [now apply emit_uncaught | exact E].
  - now rewrite !(@sendCommand_unknown _ _ _ _ _ Hget).
Qed.

Lemma first_terminal_event_wins_witness :
  promise (sendCommand legacy_config (js "PING") None
             ([OnConnect; OnData (jsq "{'status':'ok'}")] ++ OnEnd
              :: [OnError None (js "read ECONNRESET"); OnTimeout])) =
  promise (sendCommand legacy_config (js "PING") None
             ([OnConnect; OnData (jsq "{'status':'ok'}")] ++ [OnEnd])).
Proof.
  exact (first_terminal_event_wins legacy_config (js "PING") None
           [OnConnect; OnData (jsq "{'status':'ok'}")]
           [OnError None (js "read ECONNRESET"); OnTimeout] OnEnd eq_refl eq_refl).
Defined.

(** X9.  For a response in ASCII the result does not depend on how its
    bytes are cut into [data] events: two traces that deliver the same
    bytes before the end of the connection resolve to the same value.
    Each chunk is decoded by itself, so this is not so for a cut inside
    the bytes of one character: the two bytes of U+00E9 give that
    character when they arrive together and two U+FFFD when they arrive
    in two chunks, and the values resolved differ. *)
Theorem chunks_do_not_matter :
  (forall (config : Config) (command : jsstring) (imageName : option jsstring)
          (pre1 pre2 post1 post2 : list SocketEvent),
      existsb terminal pre1 = false -> existsb terminal pre2 = false ->
      forallb ascii_data pre1 = true -> forallb ascii_data pre2 = true ->
      received_bytes pre1 = received_bytes pre2 ->
      promise (sendCommand config command imageName (pre1 ++ OnEnd :: post1)) =
      promise (sendCommand config command imageName (pre2 ++ OnEnd :: post2)))
  /\ received [OnData [0xc3; 0xa9]%N] = [0xe9%N]
  /\ received [OnData [0xc3%N]; OnData [0xa9%N]] = [0xfffd; 0xfffd]%N
  /\ promise (sendCommand legacy_config (js "PING") None
                [OnConnect;
                 OnData (jsq "{'status':'ok','data':'" ++ [0xc3; 0xa9]%N ++ jsq "'}");
                 OnEnd])
     = Fulfilled (JObject [(js "status", JString (js "ok"));
                           (js "data", JString [0xe9%N])])
  /\ promise (sendCommand legacy_config (js "PING") None
                [OnConnect;
                 OnData (jsq "{'status':'ok','data':'" ++ [0xc3%N]);
                 OnData ([0xa9%N] ++ jsq "'}");
                 OnEnd])
     = Fulfilled (JObject [(js "status", JString (js "ok"));
                           (js "data", JString [0xfffd; 0xfffd]%N)]).
Proof.
  split; [| repeat split; vm_compute; reflexivity].
  intros config command imageName pre1 pre2 post1 post2 H1 H2 A1 A2 E.
  destruct (getServer config imageName) as [server|message] eqn:Hget.
  - destruct (port server) as [p|] eqn:Hport;
      [| now rewrite !(@sendCommand_rejected _ _ _ _ _ Hget Hport)].
    assert (Hport' : port server <> None) by congruence.
    rewrite (@sendCommand_end config command imageName server pre1 post1 Hget Hport' H1).
    rewrite (@sendCommand_end config command imageName server pre2 post2 Hget Hport' H2).
    now rewrite !received_ascii, E.
  - now rewrite !(@sendCommand_unknown _ _ _ _ _ Hget).
Qed.

Lemma chunks_do_not_matter_witness :
  promise (sendCommand legacy_config (js "PING") None
             ([OnConnect; OnData (jsq "{'status':"); OnData (jsq "'ok'}")]
              ++ OnEnd :: [])) =
  promise (sendCommand legacy_config (js "PING") None
             ([OnConnect; OnData (jsq "{'status':'ok'}")] ++ OnEnd :: [])).
Proof.
  exact (proj1 chunks_do_not_matter legacy_config (js "PING") None
           [OnConnect; OnData (jsq "{'status':"); OnData (jsq "'ok'}")]
           [OnConnect; OnData (jsq "{'status':'ok'}")] [] []
           eq_refl eq_refl eq_refl eq_refl eq_refl).
Defined.

(** The value a promise has taken is an error envelope or the first line
    as parsed, and is not [null]. *)
Lemma fulfilled_value config command imageName events value :
  promise (sendCommand config command imageName events) = Fulfilled value ->
  value <> JNull
  /\ ((exists message, value = error_envelope message)
      \/ exists pre post,
           events = pre ++ OnEnd :: post /\ existsb terminal pre = false
           /\ JSON_parse (first_line (trim (received pre))) = Return value).
Proof.
  intros H.
  assert (Henvelope : forall message,
            value = error_envelope message ->
            value <> JNull
            /\ ((exists message, value = error_envelope message)
                \/ exists pre post,
                     events = pre ++ OnEnd :: post /\ existsb terminal pre = false
                     /\ JSON_parse (first_line (trim (received pre))) = Return value)).
  { intros message ->. split; [discriminate | left; now exists message]. }
  destruct (getServer config imageName) as [server|message] eqn:Hget.
  - destruct (port server) as [p|] eqn:Hport;
      [| rewrite (@sendCommand_rejected _ _ _ _ _ Hget Hport) in H; discriminate].
    assert (Hport' : port server <> None) by congruence.
    destruct (existsb terminal events) eqn:Ht.
    + apply first_terminal in Ht as [pre [ev [post [-> [Hpre Hev]]]]].
      pose proof (@sendCommand_terminal config command imageName server pre ev post
                    Hget Hport' Hpre) as Hs.
      simpl in Hs. destruct ev as [|data| | |code text]; try discriminate.
      * rewrite Hs in H. injection H as <-. rewrite on_end_try_parse.
        destruct (JSON_parse (first_line (trim (received pre)))) as [result|reason]
          eqn:Hparse; simpl.
        -- destruct (on_end_result_cases server result)
             as [[-> [m E]] | [[m E] | [Hne E]]]; rewrite E.
           ++ split; [discriminate | left; eexists; reflexivity].
           ++ split; [discriminate | left; eexists; reflexivity].
           ++ split; [exact Hne |]. right. now exists pre, post.
        -- split; [discriminate | left; eexists; reflexivity].
      * rewrite Hs in H. injection H as <-.
        split; [discriminate | left; eexists; reflexivity].
      * destruct Hs as [text' Hs]. rewrite Hs in H. injection H as <-.
        split; [discriminate | left; eexists; reflexivity].
    + destruct (@sendCommand_before_terminal config command imageName server events
                  Hget Ht) as [Hp _].
      rewrite Hp, (@started_pending server Hport') in H. discriminate.
  - rewrite (@sendCommand_unknown _ _ _ _ _ Hget) in H. simpl in H.
    injection H as <-. split; [discriminate | left; eexists; reflexivity].
Qed.

(** X10.  [sendCommand] never resolves to [null]: whatever it resolves
    to is an error envelope it has made itself, or the first line of the
    response exactly as [JSON.parse] returned it. *)
Theorem resolved_value :
  forall (config : Config) (command : jsstring) (imageName : option jsstring)
         (events : list SocketEvent) (value : JSON),
    promise (sendCommand config command imageName events) = Fulfilled value ->
    value <> JNull
    /\ ((exists message, value = error_envelope message)
        \/ exists pre post,
             events = pre ++ OnEnd :: post /\ existsb terminal pre = false
             /\ JSON_parse (first_line (trim (received pre))) = Return value).
Proof. exact fulfilled_value. Qed.

Lemma resolved_value_witness :
  JNumber 42 0 <> JNull
  /\ ((exists message, JNumber 42 0 = error_envelope message)
      \/ exists pre post,
           [OnConnect; OnData (js "42"); OnEnd] = pre ++ OnEnd :: post
           /\ existsb terminal pre = false
           /\ JSON_parse (first_line (trim (received pre))) = Return (JNumber 42 0)).
Proof.
  exact (resolved_value legacy_config (js "PING") None
           [OnConnect; OnData (js "42"); OnEnd] eq_refl).
Defined.

(** The value resolved on a transport error. *)
Lemma emit_error_value server command code message st :
  uncaught st = None ->
  emit server command st (OnError code message) =
  resolve
    (error_envelope
       (if match code with
           | Some c => jsstring_eqb c (js "ECONNREFUSED")
           | None => false
           end
        then js "Connection refused to " ++ show (name server) ++ js " ("
             ++ show (host server) ++ js ":" ++ show_port (port server)
             ++ js "). Is CliBridge running?"
        else js "Connection error: " ++ message))
    st.
Proof.
  intros Hu. apply emit_handler; [exact Hu |]. simpl. unfold on_error.
  now destruct (match code with
                | Some c => jsstring_eqb c (js "ECONNREFUSED")
                | None => false
                end).
Qed.

(** X11.  When the socket of a server reports an error before the
    connection has ended or timed out, the call resolves to an object
    with the status "error": for the code ECONNREFUSED its message names
    the server, its host and port and asks whether CliBridge is running;
    for every other code, or none, it is "Connection error: " followed by
    the message of the error.  For a server without port the promise was
    rejected when [socket.connect] threw, and stays so. *)
Theorem transport_error_messages :
  forall (config : Config) (command : jsstring) (imageName : option jsstring)
         (server : Server) (pre post : list SocketEvent)
         (code : option jsstring) (message : jsstring),
    getServer config imageName = Return server ->
    existsb terminal pre = false ->
    let st := sendCommand config command imageName
                (pre ++ OnError code message :: post) in
    let settled (text : jsstring) :=
      match port server with
      | Some _ => Fulfilled (JObject [(js "status", JString (js "error"));
                                      (js "message", JString text)])
      | None => Rejected ERR_MISSING_ARGS
      end in
    (code = Some (js "ECONNREFUSED") ->
       promise st =
       settled (js "Connection refused to " ++ show (name server) ++ js " ("
                ++ show (host server) ++ js ":" ++ show_port (port server)
                ++ js "). Is CliBridge running?"))
    /\ (code <> Some (js "ECONNREFUSED") ->
        promise st = settled (js "Connection error: " ++ message)).
Proof.
  intros config command imageName server pre post code message Hget Hpre st settled.
  assert (Hst : promise st =
                settled
                  (if match code with
                      | Some c => jsstring_eqb c (js "ECONNREFUSED")
                      | None => false
                      end
                   then js "Connection refused to " ++ show (name server) ++ js " ("
                        ++ show (host server) ++ js ":" ++ show_port (port server)
                        ++ js "). Is CliBridge running?"
                   else js "Connection error: " ++ message)).
  { subst st settled. cbv beta.
    destruct (port server) as [p|] eqn:Hport;
      [| now apply (@sendCommand_rejected _ _ _ _ _ Hget Hport)].
    rewrite (@sendCommand_known _ _ _ _ _ Hget), fold_left_app. simpl.
    destruct (@run_before_terminal server command pre (started server) eq_refl Hpre)
      as [Hp [_ Hu]].
    set (st1 := fold_left (emit server command) pre (started server)) in *.
    rewrite (@started_pending server) in Hp by congruence.
    apply run_fulfilled; [now apply emit_uncaught |].
    rewrite emit_error_value by exact Hu. rewrite Hport.
    now apply resolve_pending. }
  rewrite Hst. split.
  - intros ->. now rewrite jsstring_eqb_refl.
  - intros Hcode. destruct code as [c|]; [| reflexivity].
    destruct (jsstring_eqb c (js "ECONNREFUSED")) eqn:E; [| reflexivity].
    apply jsstring_eqb_eq in E. subst c. contradiction.
Qed.

Lemma transport_error_messages_witness :
  promise (sendCommand legacy_config (js "PING") None
             ([] ++ OnError (Some (js "ECONNREFUSED")) (js "connect ECONNREFUSED")
              :: [])) =
  Fulfilled
    (JObject
       [(js "status", JString (js "error"));
        (js "message",
         JString (js "Connection refused to default (localhost:9999). Is CliBridge running?"))]).
Proof.
  exact (proj1 (transport_error_messages legacy_config (js "PING") None [] []
                  (Some (js "ECONNREFUSED")) (js "connect ECONNREFUSED")
                  eq_refl eq_refl) eq_refl).
Defined.



Lemma own_property_absent entries key :
  own_property entries key = None ->
  servers_get entries key =
  if existsb (jsstring_eqb key) Object_prototype_names
  then Some inherited_member else None.
Proof. intros H. unfold servers_get. now rewrite H. Qed.

(** X20.  A name that every object inherits, such as "constructor" or
    "toString", is not reported as unknown when no server is configured
    under it: [config.servers[name]] finds the inherited member, so
    [getServer] returns a server without host, port and API key, and
    [sendCommand] creates a socket and connects it without port and
    host.  [validateServerName] accepts these names when they begin
    with a letter. *)
Theorem inherited_names_resolve :
  forall (config : Config) (command : jsstring) (events : list SocketEvent)
         (key : jsstring),
    In key Object_prototype_names ->
    own_property (servers config) key = None ->
    getServer config (Some key) =
    Return {| name := Some key; host := None; port := None; apiKey := KeyUndefined |}
    /\ calls (sendCommand config command (Some key) events) =
       [NewSocket; SocketSetTimeout 30000; SocketConnect None None]
       ++ flat_map (calls_on {| name := Some key; host := None; port := None;
                                apiKey := KeyUndefined |} command) events
    /\ (Validation.valid (Validation.validateServerName (VString key)) = true
        <-> In key (map js ["constructor"; "hasOwnProperty"; "isPrototypeOf";
                            "propertyIsEnumerable"; "toLocaleString"; "toString";
                            "valueOf"]%string)).
Proof.
  intros config command events key Hin Hown.
  assert (Hne : key <> []).
  { intros ->. revert Hin. vm_compute. intuition discriminate. }
  assert (Hget : getServer config (Some key) =
                 Return {| name := Some key; host := None; port := None;
                           apiKey := KeyUndefined |}).
  { unfold getServer, serverName.
    replace (or_else (Some key) _) with (Some key)
      by (destruct key; [contradiction | reflexivity]).
    simpl show. rewrite (own_property_absent _ _ Hown).
    replace (existsb (jsstring_eqb key) Object_prototype_names) with true;
      [reflexivity |].
    symmetry. apply existsb_exists. exists key. split; [exact Hin |].
    apply jsstring_eqb_refl. }
  split; [exact Hget |]. split.
  - now rewrite (@sendCommand_calls config command (Some key) events _ Hget).
  - clear Hget Hown Hne. unfold Object_prototype_names in Hin. simpl in Hin.
    repeat (destruct Hin as [<- | Hin];
            [vm_compute; intuition (try reflexivity; discriminate) |]).
    destruct Hin.
Qed.

Lemma inherited_names_resolve_witness :
  getServer dev_prod_config (Some (js "constructor")) =
  Return {| name := Some (js "constructor"); host := None; port := None;
            apiKey := KeyUndefined |}.
Proof.
  exact (proj1 (@inherited_names_resolve dev_prod_config (js "PING") []
                  (js "constructor") ltac:(left; reflexivity) eq_refl)).
Defined.

End ChannelExtras.

(** ** What the handlers return *)

Module DisplayProperties.
Import Validation Channel Traces Tools Notions Display.
Import ChannelFacts ChannelProperties ChannelExtras.

Lemma throws_Return (A : Type) (a : A) : ~ throws (Return a).
Proof. intros [message H]. discriminate. Qed.

Lemma throws_Throw (A : Type) (message : jsstring) : throws (@Throw A message).
Proof. now exists message. Qed.

(** [String(v)] throws a [TypeError] on the values that cannot be
    converted, and on no other. *)
Lemma ToString_cases toString : forall v,
  if unprintable v
  then ToString toString v = Throw (js "Cannot convert object to primitive value")
  else exists text, ToString toString v = Return text.
Proof.
  fix IH 1. intros [| [|] | m e | s | items | members];
    cbn [unprintable ToString]; try (eexists; reflexivity).
  - assert (H : if existsb unprintable items
                then map_exn (fun item => match item with
                                          | JNull => Return []
                                          | _ => ToString toString item
                                          end) items
                     = Throw (js "Cannot convert object to primitive value")
                else exists texts,
                       map_exn (fun item => match item with
                                            | JNull => Return []
                                            | _ => ToString toString item
                                            end) items = Return texts).
    { revert items. fix IHl 1. intros [|item items]; cbn [existsb map_exn].
      - eexists; reflexivity.
      - pose proof (IH item) as Hitem. pose proof (IHl items) as Hitems.
        destruct (unprintable item) eqn:E; cbn [orb].
        + destruct item; try discriminate E; now rewrite Hitem.
        + destruct Hitem as [text Hitem].
          assert (Ht : exists t, match item with
                                 | JNull => Return []
                                 | _ => ToString toString item
                                 end = Return t)
            by (destruct item; first [now exists text | now exists []]).
          destruct Ht as [t ->]. cbn [bind].
          destruct (existsb unprintable items).
          * now rewrite Hitems.
          * destruct Hitems as [texts ->]. eexists; reflexivity. }
    destruct (existsb unprintable items).
    + now rewrite H.
    + destruct H as [texts ->]. eexists; reflexivity.
  - destruct (member members (js "toString")); [reflexivity | eexists; reflexivity].
Qed.

Lemma ToString_throws toString v :
  throws (ToString toString v) <-> unprintable v = true.
Proof.
  pose proof (ToString_cases toString v) as H.
  destruct (unprintable v).
  - rewrite H. split; [reflexivity | intros _; apply throws_Throw].
  - destruct H as [text ->]. split; [intros H; now apply throws_Return in H | discriminate].
Qed.

Lemma map_ToString_throws toString items :
  throws (texts <- map_exn (ToString toString) items ;;
          Return (join [newline] texts))
  <-> existsb unprintable items = true.
Proof.
  assert (H : if existsb unprintable items
              then throws (map_exn (ToString toString) items)
              else exists texts, map_exn (ToString toString) items = Return texts).
  { induction items as [|item items IH]; cbn [existsb map_exn].
    - eexists; reflexivity.
    - pose proof (ToString_cases toString item) as Hitem.
      destruct (unprintable item); cbn [orb].
      + rewrite Hitem. apply throws_Throw.
      + destruct Hitem as [text ->]. cbn [bind].
        destruct (existsb unprintable items).
        * destruct IH as [message ->]. apply throws_Throw.
        * destruct IH as [texts ->]. eexists; reflexivity. }
  destruct (existsb unprintable items).
  - destruct H as [message ->]. split; [reflexivity | intros _; apply throws_Throw].
  - destruct H as [texts ->]. split; [intros H; now apply throws_Return in H | discriminate].
Qed.


(** A falsy value can be converted. *)
Lemma falsy_printable v : truthy_value (Some v) = false -> unprintable v = false.
Proof. destruct v; simpl; intros H; try reflexivity; discriminate. Qed.

Lemma status_test members literal :
  is_string (member members (js "status")) literal = false <->
  member members (js "status") <> Some (JString literal).
Proof.
  rewrite <- is_string_spec. now destruct (is_string (member members (js "status")) literal).
Qed.

(** When [formatResponse] throws. *)
Lemma formatResponse_throws toString stringify value :
  value <> JNull ->
  (throws (formatResponse toString stringify value) <-> undisplayable value).
Proof.
  intros Hne. unfold undisplayable.
  destruct value as [| | | | |members]; try congruence;
    try (split; [intros H; now apply throws_Return in H
                | intros [ms [E _]]; discriminate]).
  unfold formatResponse. cbn [get bind].
  destruct (is_string (member members (js "status")) (js "error")) eqn:Hstatus.
  - apply is_string_spec in Hstatus.
    destruct (member members (js "message")) as [m|] eqn:Hm.
    + destruct (truthy_value (Some m)) eqn:Ht.
      * cbn [template]. pose proof (ToString_cases toString m) as Hcases.
        destruct (unprintable m) eqn:Hu.
        -- rewrite Hcases. cbn [bind]. split; [| intros _; apply throws_Throw].
           intros _. exists members. split; [reflexivity |]. left.
           split; [exact Hstatus |]. now exists m.
        -- destruct Hcases as [text ->]. cbn [bind].
           split; [intros H; now apply throws_Return in H |].
           intros [ms [E [[_ [m' [Hm' Hu']]] | [Hs _]]]]; injection E as <-.
           ++ congruence.
           ++ contradiction.
      * cbn [bind]. split; [intros H; now apply throws_Return in H |].
        intros [ms [E [[_ [m' [Hm' Hu']]] | [Hs _]]]]; injection E as <-.
        -- rewrite Hm in Hm'. injection Hm' as <-.
           rewrite (falsy_printable m Ht) in Hu'. discriminate.
        -- contradiction.
    + cbn [truthy_value bind]. split; [intros H; now apply throws_Return in H |].
      intros [ms [E [[_ [m' [Hm' _]]] | [Hs _]]]]; injection E as <-.
      * rewrite Hm in Hm'. discriminate.
      * contradiction.
  - apply status_test in Hstatus.
    destruct (member members (js "data")) as [d|] eqn:Hd.
    + destruct d as [| | | |items|];
        try (split; [intros H; now apply throws_Return in H |];
             intros [ms [E [[Hs _] | [_ [items' [Hd' _]]]]]]; injection E as <-;
             [contradiction | rewrite Hd in Hd'; discriminate]).
      * destruct b; (split; [intros H; now apply throws_Return in H |];
             intros [ms [E [[Hs _] | [_ [items' [Hd' _]]]]]]; injection E as <-;
             [contradiction | rewrite Hd in Hd'; discriminate]).
      * rewrite map_ToString_throws. split.
        -- intros Hu. exists members. split; [reflexivity |]. right.
           split; [exact Hstatus |]. now exists items.
        -- intros [ms [E [[Hs _] | [_ [items' [Hd' Hu]]]]]]; injection E as <-;
             [contradiction |].
           rewrite Hd in Hd'. now injection Hd' as <-.
    + split; [intros H; now apply throws_Return in H |].
      intros [ms [E [[Hs _] | [_ [items' [Hd' _]]]]]]; injection E as <-;
        [contradiction | rewrite Hd in Hd'; discriminate].
Qed.

Lemma formatResponse_error toString stringify message :
  formatResponse toString stringify (error_envelope message) =
  Return (js "Error: "
          ++ (if jsstring_eqb message [] then js "Unknown error" else message)).
Proof.
  unfold formatResponse, error_envelope. simpl.
  now destruct (jsstring_eqb message []).
Qed.



(** X12.  On a value [sendCommand] has resolved to, [formatResponse]
    throws exactly when it has to convert a value that cannot be
    converted to a string: the message of an error envelope, or an
    element of an array of data, that is an object with a member named
    [toString] or an array holding one.  It shows every error envelope
    the channel makes as "Error: " followed by the message, or by
    "Unknown error" when the message is empty. *)
Theorem failures_are_displayed :
  forall (toString : Z -> Z -> jsstring) (stringify : JSON -> jsstring)
         (config : Config) (command : jsstring) (imageName : option jsstring)
         (events : list SocketEvent) (value : JSON),
    promise (sendCommand config command imageName events) = Fulfilled value ->
    (throws (formatResponse toString stringify value) <-> undisplayable value)
    /\ (forall message,
          value = JObject [(js "status", JString (js "error"));
                           (js "message", JString message)] ->
          formatResponse toString stringify value =
          Return (js "Error: "
                  ++ (if jsstring_eqb message [] then js "Unknown error"
                      else message))).
Proof.
  intros toString stringify config command imageName events value H. split.
  - apply formatResponse_throws.
    exact (proj1 (@fulfilled_value config command imageName events value H)).
  - intros message ->. apply (formatResponse_error toString stringify message).
Qed.

Lemma failures_are_displayed_witness :
  formatResponse (fun _ _ => []) (fun _ => [])
    (JObject [(js "status", JString (js "error"));
              (js "message",
               JString (js "Unknown server: staging. Available: dev, prod"))])
  = Return (js "Error: Unknown server: staging. Available: dev, prod").
Proof.
  exact (proj2 (failures_are_displayed (fun _ _ => []) (fun _ => [])
                  dev_prod_config (js "PING") (Some (js "staging")) [] eq_refl)
               _ eq_refl).
Defined.



(** What a fulfilled promise holds when the server is unknown. *)
Lemma fulfilled_unknown config command imageName events value message :
  getServer config imageName = Throw message ->
  promise (sendCommand config command imageName events) = Fulfilled value ->
  value = error_envelope message.
Proof.
  intros Hget H. rewrite (@sendCommand_unknown _ _ _ _ _ Hget) in H. simpl in H.
  congruence.
Qed.




(** X15.  When the server answers a [ping] with the status "ok", the
    second lookup of the server in the handler succeeds, and the text
    returned names the server, host and port that the socket of this
    call was connected to. *)
Theorem ping_names_the_connection :
  forall (toString : Z -> Z -> jsstring) (stringify : JSON -> jsstring)
         (config : Config) (image : option jsstring) (events : list SocketEvent)
         (members : list (jsstring * JSON)),
    first_invalid (validations ping image) = None ->
    promise (sendCommand config (js "PING") image events) = Fulfilled (JObject members) ->
    member members (js "status") = Some (JString (js "ok")) ->
    exists server,
      getServer config image = Return server
      /\ ping_handler toString stringify config image events
         = Content (js "Connected to CliBridge '" ++ show (name server) ++ js "' at "
                    ++ show (host server) ++ js ":" ++ show_port (port server)) false
      /\ In (SocketConnect (port server) (host server))
            (calls (sendCommand config (js "PING") image events)).
Proof.
  intros toString stringify config image events members Hvalid H Hok.
  destruct (getServer config image) as [server|message] eqn:Hget.
  - exists server. split; [reflexivity |]. split.
    + unfold ping_handler, handle. rewrite Hvalid.
      change (command_of ping) with (js "PING"). rewrite H.
      unfold ping_respond. simpl. rewrite Hok. simpl. now rewrite Hget.
    + rewrite (@sendCommand_calls config (js "PING") image events server Hget).
      simpl. auto.
  - pose proof (@fulfilled_unknown config (js "PING") image events _ message Hget H) as E.
    injection E as ->. discriminate Hok.
Qed.

Lemma ping_names_the_connection_witness :
  ping_handler (fun _ _ => []) (fun _ => []) legacy_config None
    [OnConnect; OnData (jsq "{'status':'ok','data':'pong'}"); OnEnd]
  = Content (js "Connected to CliBridge 'default' at localhost:9999") false.
Proof.
  destruct (ping_names_the_connection (fun _ _ => []) (fun _ => []) legacy_config None
              [OnConnect; OnData (jsq "{'status':'ok','data':'pong'}"); OnEnd]
              eq_refl eq_refl eq_refl) as [server [Hget [Hping _]]].
  injection Hget as <-. exact Hping.
Defined.

Lemma template_throws toString o :
  throws (template toString o) <-> exists v, o = Some v /\ unprintable v = true.
Proof.
  destruct o as [v|]; cbn [template].
  - rewrite ToString_throws. split.
    + intros H. now exists v.
    + intros [v' [E H]]. now injection E as <-.
  - split; [intros H; now apply throws_Return in H | intros [v [E _]]; discriminate].
Qed.

(** When the response of [eval_smalltalk] with the status "ok" throws. *)
Lemma eval_ok_throws toString (data : option JSON) :
  throws (value <- get_of data (js "result") ;;
          value_text <- template toString value ;;
          class_name <- get_of data (js "class") ;;
          class_text <- template toString class_name ;;
          Return (value_text ++ js " (" ++ class_text ++ js ")"))
  <-> data = None \/ data = Some JNull
      \/ exists d key x,
           data = Some d /\ (key = js "result" \/ key = js "class")
           /\ get d key = Return (Some x) /\ unprintable x = true.
Proof.
  assert (Hplain : forall d,
            d <> JNull -> (forall key, get d key = Return None) ->
            throws (value <- get_of (Some d) (js "result") ;;
                    value_text <- template toString value ;;
                    class_name <- get_of (Some d) (js "class") ;;
                    class_text <- template toString class_name ;;
                    Return (value_text ++ js " (" ++ class_text ++ js ")"))
            <-> Some d = None \/ Some d = Some JNull
                \/ exists d' key x,
                     Some d = Some d' /\ (key = js "result" \/ key = js "class")
                     /\ get d' key = Return (Some x) /\ unprintable x = true).
  { intros d Hne Hget. cbn [get_of]. rewrite !Hget. cbn [bind template].
    split; [intros H; now apply throws_Return in H |].
    intros [E | [E | [d' [key [x [E [_ [Hx _]]]]]]]];
      [discriminate | congruence |].
    injection E as <-. rewrite Hget in Hx. discriminate. }
  destruct data as [[| | | | |ms]|];
    try (apply Hplain; [discriminate | reflexivity]).
  - split; [intros _; right; now left | intros _; apply throws_Throw].
  - cbn [get_of get bind].
    pose proof (template_throws toString (member ms (js "result"))) as Hr.
    pose proof (template_throws toString (member ms (js "class"))) as Hc.
    destruct (template toString (member ms (js "result"))) as [rt|rm]; cbn [bind].
    + destruct (template toString (member ms (js "class"))) as [ct|cm]; cbn [bind].
      * split; [intros H; now apply throws_Return in H |].
        intros [E | [E | [d [key [x [E [Hkey [Hx Hu]]]]]]]]; try discriminate.
        injection E as <-. cbn [get] in Hx. injection Hx as Hx.
        exfalso. destruct Hkey as [-> | ->].
        -- apply (@throws_Return _ rt). apply Hr. now exists x.
        -- apply (@throws_Return _ ct). apply Hc. now exists x.
      * split; [| intros _; apply throws_Throw]. intros _. right. right.
        destruct (proj1 Hc (throws_Throw _ cm)) as [x [Hx Hu]].
        exists (JObject ms), (js "class"), x. cbn [get]. rewrite Hx. auto.
    + split; [| intros _; apply throws_Throw]. intros _. right. right.
      destruct (proj1 Hr (throws_Throw _ rm)) as [x [Hx Hu]].
      exists (JObject ms), (js "result"), x. cbn [get]. rewrite Hx. auto.
  - split; [intros _; now left | intros _; apply throws_Throw].
Qed.

(** X16.  When the handler of [eval_smalltalk] throws on a value the
    channel has resolved to.  On a response with the status "ok" it
    throws exactly when there is no data, or [null] as data, from which
    [result] cannot be read, and when the [result] or the [class] of the
    data cannot be converted to a string.  On every other response it
    throws exactly when [formatResponse] does. *)
Theorem eval_raises_without_data :
  forall (toString : Z -> Z -> jsstring) (stringify : JSON -> jsstring)
         (config : Config) (expression : jsstring) (image : option jsstring)
         (events : list SocketEvent) (value : JSON),
    first_invalid (validations (eval_smalltalk expression) image) = None ->
    promise (sendCommand config (command_of (eval_smalltalk expression)) image events)
    = Fulfilled value ->
    (raises (eval_handler toString stringify config expression image events)
     <-> (exists members,
            value = JObject members
            /\ member members (js "status") = Some (JString (js "ok"))
            /\ (member members (js "data") = None
                \/ member members (js "data") = Some JNull
                \/ exists d key x,
                     member members (js "data") = Some d
                     /\ (key = js "result" \/ key = js "class")
                     /\ get d key = Return (Some x) /\ unprintable x = true))
         \/ (undisplayable value
             /\ forall members,
                  value = JObject members ->
                  member members (js "status") <> Some (JString (js "ok")))).
Proof.
  intros toString stringify config expression image events value Hvalid H.
  destruct (@fulfilled_value _ _ _ _ _ H) as [Hne _].
  unfold eval_handler, handle. rewrite Hvalid, H.
  assert (Hraises : raises match eval_respond toString stringify value with
                           | Return text => Content text false
                           | Throw message => Raised message
                           end
                    <-> throws (eval_respond toString stringify value)).
  { destruct (eval_respond toString stringify value) as [text|message].
    - split; [intros [] | intros Ht; now apply throws_Return in Ht].
    - split; [intros _; apply throws_Throw | intros _; exact I]. }
  rewrite Hraises. clear Hraises.
  rewrite <- (@formatResponse_throws toString stringify value Hne).
  unfold eval_respond.
  destruct value as [| | | | |members]; try congruence;
    try (cbn [get bind is_string]; split;
         [intros Ht; right; split; [exact Ht | discriminate]
         | intros [[ms [E _]] | [Ht _]]; [discriminate | exact Ht]]).
  cbn [get bind].
  destruct (is_string (member members (js "status")) (js "ok")) eqn:Hok.
  - apply is_string_spec in Hok. rewrite eval_ok_throws. split.
    + intros Hd. left. exists members. auto.
    + intros [[ms [E [_ Hd]]] | [_ Hs]].
      * now injection E as <-.
      * exfalso. exact (Hs members eq_refl Hok).
  - apply status_test in Hok. split.
    + intros Ht. right. split; [exact Ht |]. intros ms E. now injection E as <-.
    + intros [[ms [E [Hs _]]] | [Ht _]]; [| exact Ht].
      injection E as <-. contradiction.
Qed.

Lemma eval_raises_without_data_witness :
  raises (eval_handler (fun _ _ => []) (fun _ => []) legacy_config (js "3 + 4") None
            [OnConnect; OnData (jsq "{'status':'ok'}"); OnEnd]).
Proof.
  apply (proj2 (eval_raises_without_data (fun _ _ => []) (fun _ => []) legacy_config
                  (js "3 + 4") None
                  [OnConnect; OnData (jsq "{'status':'ok'}"); OnEnd]
                  eq_refl eq_refl)).
  left. exists [(js "status", JString (js "ok"))]. auto.
Defined.

Lemma image_line_same a b x y :
  default a = default b ->
  fst x = fst y ->
  entry_host (snd x) = entry_host (snd y) ->
  entry_port (snd x) = entry_port (snd y) ->
  truthy (entry_apiKey (snd x)) = truthy (entry_apiKey (snd y)) ->
  image_line a x = image_line b y.
Proof.
  destruct x as [k e], y as [k' e']. simpl. intros -> -> -> -> Hkey.
  unfold image_line. now rewrite Hkey.
Qed.

(** X17.  [list_images] never shows an API key: two configurations that
    differ only in the text of their keys, a key being set in both or in
    neither for each server, give the same listing. *)
Theorem list_images_hides_keys :
  forall (a b : Config),
    default a = default b ->
    same_but_keys (servers a) (servers b) ->
    list_images a = list_images b.
Proof.
  intros a b Hdefault Hsame. unfold list_images. f_equal.
  induction Hsame as [|x y l l' [H1 [H2 [H3 H4]]] _ IH]; simpl; [reflexivity |].
  f_equal; [now apply image_line_same | exact IH].
Qed.

Lemma list_images_hides_keys_witness :
  list_images (config_with_key (KeyString (js "secret")))
  = list_images (config_with_key (KeyString (js "another"))).
Proof.
  apply list_images_hides_keys; [reflexivity |].
  repeat constructor.
Defined.

(** X18.  The line [list_images] gives for a server agrees with what
    [sendCommand] does for it: it shows the host and port that a command
    to this server connects to, the mark " [auth]" exactly when such a
    command is sent with an "AUTH:" prefix, and the mark " (default)"
    only for the server that a command without server name goes to. *)
Theorem list_images_agrees :
  forall (config : Config) (key : jsstring) (entry : ServerEntry),
    key <> [] ->
    own_property (servers config) key = Some entry ->
    exists server,
      getServer config (Some key) = Return server
      /\ image_line config (key, entry) =
         key ++ js ": " ++ show (host server) ++ js ":" ++ show_port (port server)
         ++ (if jsstring_eqb (prefix server) [] then [] else js " [auth]")
         ++ (if match default config with
                | Some d => jsstring_eqb key d
                | None => false
                end
             then js " (default)" else [])
      /\ (default config = Some key -> getServer config None = Return server).
Proof.
  intros config key entry Hne Hown.
  assert (Hget : getServer config (Some key) =
                 Return {| name := match entry_name entry with
                                   | Some n => Some n
                                   | None => Some key
                                   end;
                           host := entry_host entry; port := entry_port entry;
                           apiKey := entry_apiKey entry |}).
  { apply getServer_own; [| exact Hown].
    unfold serverName. destruct key; [contradiction | reflexivity]. }
  eexists. split; [exact Hget |]. split.
  - unfold image_line, prefix. simpl.
    destruct (truthy (entry_apiKey entry)); reflexivity.
  - intros Hdefault. rewrite <- Hget. unfold getServer, serverName.
    rewrite Hdefault. destruct key; [contradiction | reflexivity].
Qed.

Lemma list_images_agrees_witness :
  exists server,
    getServer dev_prod_config (Some (js "dev")) = Return server
    /\ image_line dev_prod_config
         (js "dev",
          {| entry_name := None; entry_host := Some (js "dev.local");
             entry_port := Some {| port_number := 9998; port_in_range := eq_refl |};
             entry_apiKey := KeyUndefined |}) =
       js "dev" ++ js ": " ++ show (host server) ++ js ":" ++ show_port (port server)
       ++ (if jsstring_eqb (prefix server) [] then [] else js " [auth]")
       ++ (if match default dev_prod_config with
              | Some d => jsstring_eqb (js "dev") d
              | None => false
              end
           then js " (default)" else [])
    /\ (default dev_prod_config = Some (js "dev") ->
        getServer dev_prod_config None = Return server).
Proof.
  exact (@list_images_agrees dev_prod_config (js "dev") _ ltac:(discriminate) eq_refl).
Defined.

End DisplayProperties.
